(** * Tarkov-Item-Helper: marker sync and position verification

    A shallow embedding of [scripts/verify_marker_positions.py] and
    [scripts/sync_markers_to_sqlite.py].

    Conventions of the embedding.
    - Python [float] coordinates, distances and tolerances are idealised
      as real numbers [R]; [float('inf')] is the extra point [Inf].
    - Python dictionaries are [gmap]s; lists are lists.
    - A record of the remote API is a typed record whose fields are all
      optional ([dict.get] returns [None] for an absent key).
    - SQLite tables are lists of rows in rowid order. *)

From Stdlib Require Import Reals Lra ZArith String List.
From stdpp Require Import gmap strings list pretty.

(** ** Position verifier ([verify_marker_positions.py]) *)

Module Verify.
Local Open Scope R_scope.

(** Comparisons of floats, as booleans. *)
Definition Rleb (a b : R) : bool := if Rle_dec a b then true else false.
Definition Rltb (a b : R) : bool := if Rlt_dec a b then true else false.
Definition Reqb (a b : R) : bool := if Req_dec_T a b then true else false.

(** A float that may be [float('inf')]. *)
Inductive efloat : Type :=
| Fin (r : R)
| Inf.

(** [d < e] for a finite [d]. *)
Definition lt_efloat (d : R) (e : efloat) : bool :=
  match e with
  | Fin r => Rltb d r
  | Inf => true
  end.

(** [@dataclass MarkerPosition]. *)
Record MarkerPosition : Type := mkMarkerPosition {
  uid : string;
  name : string;
  x : R;
  y : R;
  category : string;
  sub_category : string;
  map_name : string;
  level : option Z
}.

(** [@dataclass VerificationResult]; [verified_at] (the wall clock at
    construction) is read by no function below and is left out. *)
Record VerificationResult : Type := mkVerificationResult {
  marker_uid : string;
  marker_name : string;
  result_map_name : string;
  api_x : R;
  api_y : R;
  web_x : option R;
  web_y : option R;
  distance : option R;
  is_match : bool;
  error : option string;
  screenshot_path : option string
}.

(** The constructor call with the dataclass defaults. *)
Definition new_result (api_marker : MarkerPosition) (map : string)
    (err : option string) : VerificationResult :=
  {| marker_uid := uid api_marker;
     marker_name := name api_marker;
     result_map_name := map;
     api_x := x api_marker;
     api_y := y api_marker;
     web_x := None;
     web_y := None;
     distance := None;
     is_match := false;
     error := err;
     screenshot_path := None |}.

(** Python truthiness. *)
Definition truthy_str (s : string) : bool := negb (String.eqb s "").
Definition truthy_opt_str (o : option string) : bool :=
  match o with Some s => truthy_str s | None => false end.
Definition truthy_opt_float (o : option R) : bool :=
  match o with Some d => negb (Reqb d 0) | None => false end.
Definition is_not_None {A : Type} (o : option A) : bool :=
  match o with Some _ => true | None => false end.

(** [sqrt((a.x - w.x) ** 2 + (a.y - w.y) ** 2)]. *)
Definition euclid (a w : MarkerPosition) : R :=
  sqrt ((x a - x w) ^ 2 + (y a - y w) ^ 2).

(** [{m.uid: m for m in web_markers if m.uid}]: later entries overwrite
    earlier ones. *)
Definition web_lookup_of (web_markers : list MarkerPosition)
    : gmap string MarkerPosition :=
  foldl (fun acc m => if truthy_str (uid m) then <[uid m := m]> acc else acc)
        ∅ web_markers.

(** One iteration of the nearest-neighbour loop; the state is
    [(min_distance, nearest_web)]. *)
Definition nearest_step (api_marker : MarkerPosition)
    (st : efloat * option MarkerPosition) (web_marker : MarkerPosition)
    : efloat * option MarkerPosition :=
  let dist := euclid api_marker web_marker in
  if lt_efloat dist (fst st) then (Fin dist, Some web_marker) else st.

Definition nearest_loop (api_marker : MarkerPosition)
    (web_markers : list MarkerPosition) : efloat * option MarkerPosition :=
  foldl (nearest_step api_marker) (Inf, None) web_markers.

Definition msg_no_web : string := "No web markers available for comparison".
Definition msg_no_match : string := "No matching web marker found".

(** The body of the main loop of [compare_positions] for one API marker. *)
Definition compare_one (map : string) (tolerance : R)
    (web_markers : list MarkerPosition)
    (web_lookup : gmap string MarkerPosition)
    (api_marker : MarkerPosition) : VerificationResult :=
  let result := new_result api_marker map None in
  match web_lookup !! uid api_marker with
  | Some web_marker =>
      let d := euclid api_marker web_marker in
      {| marker_uid := marker_uid result;
         marker_name := marker_name result;
         result_map_name := result_map_name result;
         api_x := api_x result;
         api_y := api_y result;
         web_x := Some (x web_marker);
         web_y := Some (y web_marker);
         distance := Some d;
         is_match := Rleb d tolerance;
         error := error result;
         screenshot_path := screenshot_path result |}
  | None =>
      match nearest_loop api_marker web_markers with
      | (Fin min_distance, Some nearest_web) =>
          if Rleb min_distance (tolerance * 2) then
            {| marker_uid := marker_uid result;
               marker_name := marker_name result;
               result_map_name := result_map_name result;
               api_x := api_x result;
               api_y := api_y result;
               web_x := Some (x nearest_web);
               web_y := Some (y nearest_web);
               distance := Some min_distance;
               is_match := Rleb min_distance tolerance;
               error := error result;
               screenshot_path := screenshot_path result |}
          else new_result api_marker map (Some msg_no_match)
      | _ => new_result api_marker map (Some msg_no_match)
      end
  end.

(** The state of a [MarkerVerifier] object. *)
Record MarkerVerifier : Type := mkMarkerVerifier {
  api_markers : gmap string (list MarkerPosition);
  web_markers : gmap string (list MarkerPosition);
  results : list VerificationResult
}.

Definition extend_results (v : MarkerVerifier)
    (rs : list VerificationResult) : MarkerVerifier :=
  {| api_markers := api_markers v;
     web_markers := web_markers v;
     results := results v ++ rs |}.

(** [if category_filter: api_markers = [m for m in ... if m.category == f]]. *)
Definition apply_category_filter (category_filter : option string)
    (l : list MarkerPosition) : list MarkerPosition :=
  match category_filter with
  | Some f =>
      if truthy_str f then List.filter (fun m => String.eqb (category m) f) l
      else l
  | None => l
  end.

(** The considered primary entries and the secondary set of a call. *)
Definition considered (v : MarkerVerifier) (map : string)
    (category_filter : option string) : list MarkerPosition :=
  apply_category_filter category_filter (default [] (api_markers v !! map)).

Definition secondary (v : MarkerVerifier) (map : string)
    : list MarkerPosition :=
  default [] (web_markers v !! map).

(** [compare_positions]: the returned list and the verifier afterwards. *)
Definition compare_positions (v : MarkerVerifier) (map : string)
    (tolerance : R) (category_filter : option string)
    : list VerificationResult * MarkerVerifier :=
  let api := default [] (api_markers v !! map) in
  let web := default [] (web_markers v !! map) in
  let api := apply_category_filter category_filter api in
  match web with
  | [] =>
      let rs := (fun a => new_result a map (Some msg_no_web)) <$> api in
      (rs, extend_results v rs)
  | _ :: _ =>
      let web_lookup := web_lookup_of web in
      let rs := compare_one map tolerance web web_lookup <$> api in
      (rs, extend_results v rs)
  end.

(** [sum(1 for r in rs if cond(r))]. *)
Definition count_if {A : Type} (cond : A -> bool) (rs : list A) : nat :=
  length (List.filter cond rs).

(** The "Statistics" block that closes [compare_positions]. *)
Record compare_stats : Type := mkCompareStats {
  cs_total : nat;
  cs_matched : nat;
  cs_unmatched : nat;
  cs_missing : nat
}.

Definition statistics (rs : list VerificationResult) : compare_stats :=
  {| cs_total := length rs;
     cs_matched := count_if is_match rs;
     cs_unmatched :=
       count_if (fun r => negb (is_match r) && is_not_None (web_x r)) rs;
     cs_missing := count_if (fun r => truthy_opt_str (error r)) rs |}.

(** *** Report aggregation ([_generate_json_report], [_generate_html_report]) *)

(** An entry of [by_map]. *)
Record map_counters : Type := mkMapCounters {
  bm_total : nat;
  bm_matched : nat;
  bm_discrepancies : nat;
  bm_missing : nat
}.

Definition zero_counters : map_counters :=
  {| bm_total := 0; bm_matched := 0; bm_discrepancies := 0; bm_missing := 0 |}.

(** An entry of [discrepancy_details]. *)
Record detail : Type := mkDetail {
  d_uid : string;
  d_name : string;
  d_map : string;
  d_api : R * R;
  d_web : option R * option R;
  d_distance : option R
}.

Definition detail_of (r : VerificationResult) : detail :=
  {| d_uid := marker_uid r;
     d_name := marker_name r;
     d_map := result_map_name r;
     d_api := (api_x r, api_y r);
     d_web := (web_x r, web_y r);
     d_distance := distance r |}.

(** The three summary predicates of both reports. *)
Definition is_matched (r : VerificationResult) : bool := is_match r.
Definition is_discrepancy (r : VerificationResult) : bool :=
  negb (is_match r) && truthy_opt_float (distance r).
Definition is_missing (r : VerificationResult) : bool :=
  truthy_opt_str (error r).

(** The body of the grouping loop; the state is
    [(by_map, discrepancy_details)]. *)
Definition group_step (st : gmap string map_counters * list detail)
    (result : VerificationResult) : gmap string map_counters * list detail :=
  let by_map := fst st in
  let details := snd st in
  let key := result_map_name result in
  let c := default zero_counters (by_map !! key) in
  if is_match result then
    (<[key := {| bm_total := S (bm_total c);
                 bm_matched := S (bm_matched c);
                 bm_discrepancies := bm_discrepancies c;
                 bm_missing := bm_missing c |}]> by_map, details)
  else if truthy_opt_float (distance result) then
    (<[key := {| bm_total := S (bm_total c);
                 bm_matched := bm_matched c;
                 bm_discrepancies := S (bm_discrepancies c);
                 bm_missing := bm_missing c |}]> by_map,
     details ++ [detail_of result])
  else
    (<[key := {| bm_total := S (bm_total c);
                 bm_matched := bm_matched c;
                 bm_discrepancies := bm_discrepancies c;
                 bm_missing := S (bm_missing c) |}]> by_map, details).

Definition group_results (rs : list VerificationResult)
    : gmap string map_counters * list detail :=
  foldl group_step (∅, []) rs.

(** The [report] dictionary written by [_generate_json_report]
    ([generated_at] left out). *)
Record json_report : Type := mkJsonReport {
  total_markers : nat;
  matched : nat;
  discrepancies : nat;
  missing : nat;
  by_map : gmap string map_counters;
  discrepancy_details : list detail
}.

Definition _generate_json_report (v : MarkerVerifier) : json_report :=
  let g := group_results (results v) in
  {| total_markers := length (results v);
     matched := count_if is_matched (results v);
     discrepancies := count_if is_discrepancy (results v);
     missing := count_if is_missing (results v);
     by_map := fst g;
     discrepancy_details := snd g |}.

(** The arguments of [template.render] in [_generate_html_report]. *)
Record html_context : Type := mkHtmlContext {
  h_total : nat;
  h_matched : nat;
  h_discrepancies : nat;
  h_missing_count : nat;
  h_by_map : gmap string map_counters;
  h_discrepancy_details : list detail
}.

(** What a report generator writes to its file. *)
Inductive report_output : Type :=
| JsonOut (r : json_report)
| HtmlOut (c : html_context)
| CsvOut (rows : list VerificationResult).

Definition _generate_html_report (jinja_available : bool)
    (v : MarkerVerifier) : report_output :=
  if negb jinja_available then JsonOut (_generate_json_report v)
  else
    let g := group_results (results v) in
    HtmlOut {| h_total := length (results v);
               h_matched := count_if is_matched (results v);
               h_discrepancies := count_if is_discrepancy (results v);
               h_missing_count := count_if is_missing (results v);
               h_by_map := fst g;
               h_discrepancy_details := take 50 (snd g) |}.

Definition _generate_csv_report (v : MarkerVerifier) : report_output :=
  CsvOut (results v).

Definition generate_report (pandas_available jinja_available : bool)
    (format : string) (v : MarkerVerifier) : report_output :=
  if String.eqb format "json" then JsonOut (_generate_json_report v)
  else if String.eqb format "html" then _generate_html_report jinja_available v
  else if String.eqb format "csv" && pandas_available
       then _generate_csv_report v
  else JsonOut (_generate_json_report v).

(** The detail list of whatever report was produced ([None] for CSV,
    which has no such list). *)
Definition details_of_output (o : report_output) : option (list detail) :=
  match o with
  | JsonOut r => Some (discrepancy_details r)
  | HtmlOut c => Some (h_discrepancy_details c)
  | CsvOut _ => None
  end.

(** The result built for an accepted candidate [w] at distance [d]. *)
Definition accepted (a : MarkerPosition) (map : string) (tol : R)
    (w : MarkerPosition) (d : R) : VerificationResult :=
  {| marker_uid := uid a;
     marker_name := name a;
     result_map_name := map;
     api_x := x a;
     api_y := y a;
     web_x := Some (x w);
     web_y := Some (y w);
     distance := Some d;
     is_match := Rleb d tol;
     error := None;
     screenshot_path := None |}.


(** The two shapes of a result of [compare_positions]: a candidate was
    recorded at a distance [d >= 0], or an error text was set. *)
Definition from_compare (tol : R) (r : VerificationResult) : Prop :=
  (exists a map w d, r = accepted a map tol w d /\ 0 <= d) \/
  (exists a map msg, r = new_result a map (Some msg) /\ truthy_str msg = true).

(** Exactly one of three tests holds. *)
Definition exactly_one (a b c : bool) : Prop :=
  (Nat.b2n a + Nat.b2n b + Nat.b2n c = 1)%nat.

End Verify.

(** ** Exceptions

    A call either returns or raises; [try ... except Exception] turns a
    raise into a value. *)

Module Exn.

Inductive exn : Type :=
| BinasciiError
| UnicodeDecodeError
| ValueError
| IntegrityError (constraint : string).

Inductive result (A : Type) : Type :=
| Ok (a : A)
| Raise (e : exn).
Arguments Ok {A} a.
Arguments Raise {A} e.

Definition bind {A B : Type} (r : result A) (k : A -> result B) : result B :=
  match r with
  | Ok a => k a
  | Raise e => Raise e
  end.

(** [try: return body  except Exception: return None]. *)
Definition try_or_None {A : Type} (body : result A) : option A :=
  match body with
  | Ok a => Some a
  | Raise _ => None
  end.

End Exn.

#[global] Instance result_bind : MBind Exn.result := fun A B k r => Exn.bind r k.
#[global] Instance result_ret : MRet Exn.result := fun A a => Exn.Ok a.

(** ** Payload decoder ([TarkovMarketDecoder.decode]) *)

Module Decoder.
Import Exn.

(** The slices [s[:n]] and [s[n:]] of a [str], for [n >= 0]. *)
Fixpoint slice_to (n : nat) (s : string) : string :=
  match n, s with
  | S n', String c s' => String c (slice_to n' s')
  | _, _ => EmptyString
  end.

Fixpoint slice_from (n : nat) (s : string) : string :=
  match n, s with
  | S n', String _ s' => slice_from n' s'
  | _, _ => s
  end.

(** [encoded[:5] + encoded[10:]]. *)
Definition strip_noise (encoded : string) : string :=
  (slice_to 5 encoded ++ slice_from 10 encoded)%string.

Section decode.
(** The three library calls: [base64.b64decode], [bytes.decode('utf-8')]
    and [urllib.parse.unquote]. Each may raise. *)
Variable bytes : Type.
Variable b64decode : string -> result bytes.
Variable decode_utf8 : bytes -> result string.
Variable unquote : string -> result string.

(** The body of the [try] block. *)
Definition decode_body (encoded : string) : result string :=
  let processed := strip_noise encoded in
  decoded_bytes ← b64decode processed;
  url_encoded ← decode_utf8 decoded_bytes;
  json_str ← unquote url_encoded;
  mret json_str.

Definition decode (encoded : string) : option string :=
  try_or_None (decode_body encoded).
End decode.

End Decoder.

(** ** Marker sync ([MarkerSyncService.sync_markers]) *)

Module Sync.
Import Exn.

(** *** Records of the remote API *)

(** [name_l10n] and [desc_l10n]. *)
Record l10n : Type := mkL10n {
  ko : option string;
  ru : option string
}.

(** The [geometry] object; [{}] has neither key. *)
Record point : Type := mkPoint {
  x : option R;
  y : option R
}.

(** An entry of [imgs]. *)
Record image : Type := mkImage {
  img : option string;
  img_name : option string;
  img_desc : option string
}.

Record marker : Type := mkMarker {
  uid : option string;
  category : option string;
  subCategory : option string;
  name : option string;
  name_l10n : option l10n;
  desc : option string;
  desc_l10n : option l10n;
  geometry : option point;
  level : option Z;
  questUid : option string;
  itemsUid : option (list string);
  imgs : option (list image);
  updated : option string
}.

(** *** Tables of [SCHEMA_SQL] *)

(** A row of [markers]. Columns declared [NOT NULL] hold a value, the
    others an option; [uid] is [TEXT PRIMARY KEY], which SQLite lets be
    [NULL]. The two JSON text columns hold the value that [json.dumps]
    serialises. *)
Record marker_row : Type := mkMarkerRow {
  col_uid : option string;
  col_map : string;
  col_category : string;
  col_sub_category : option string;
  col_name : string;
  col_name_ko : option string;
  col_name_ru : option string;
  col_description : option string;
  col_description_ko : option string;
  col_geometry_x : R;
  col_geometry_y : R;
  col_level : option Z;
  col_quest_uid : option string;
  col_items_uid : option (list string);
  col_images : option (list image);
  col_updated_at : option string;
  col_synced_at : option Z;
  col_is_verified : bool;
  col_verification_distance : option R
}.

(** A row of [marker_images]. *)
Record image_row : Type := mkImageRow {
  mi_id : nat;
  mi_marker_uid : string;
  mi_image_url : string;
  mi_image_name : option string;
  mi_image_description : option string;
  mi_display_order : nat
}.

(** The part of the database that [sync_markers] reads or writes.
    [marker_images_seq] is the [sqlite_sequence] entry that
    [AUTOINCREMENT] keeps for [marker_images]. Foreign keys are not
    enforced: the connection never sets [PRAGMA foreign_keys]. *)
Record db : Type := mkDb {
  markers : list marker_row;
  marker_images : list image_row;
  marker_images_seq : nat
}.

(** *** Python helpers *)

(** [not geometry] is true for [None] and for [{}]. *)
Definition truthy_geometry (g : option point) : bool :=
  match g with
  | Some p =>
      match x p, y p with
      | None, None => false
      | _, _ => true
      end
  | None => false
  end.

(** [v if v else None] for a list. *)
Definition nonempty_or_None {A : Type} (o : option (list A))
    : option (list A) :=
  match o with
  | Some (a :: l) => Some (a :: l)
  | _ => None
  end.

(** [(marker.get(key, {}) or {}).get(lang)]. *)
Definition l10n_get (o : option l10n) (lang : l10n -> option string)
    : option string :=
  match o with
  | Some d => lang d
  | None => None
  end.

(** *** SQL statements *)

(** A [NOT NULL] column without default: [INSERT] and [INSERT OR REPLACE]
    both abort on [NULL]. *)
Definition not_null {A : Type} (column : string) (v : option A) : result A :=
  match v with
  | Some a => Ok a
  | None => Raise (IntegrityError column)
  end.

(** The row built by the [INSERT OR REPLACE INTO markers] statement:
    sixteen bound values, [datetime('now')] for [synced_at], and the
    declared defaults for the two columns the statement does not name. *)
Definition marker_values (now : Z) (map_name : string) (m : marker)
    (g : point) : result marker_row :=
  c ← not_null "markers.category" (category m);
  n ← not_null "markers.name" (name m);
  gx ← not_null "markers.geometry_x" (x g);
  gy ← not_null "markers.geometry_y" (y g);
  mret {| col_uid := uid m;
          col_map := map_name;
          col_category := c;
          col_sub_category := subCategory m;
          col_name := n;
          col_name_ko := l10n_get (name_l10n m) ko;
          col_name_ru := l10n_get (name_l10n m) ru;
          col_description := desc m;
          col_description_ko := l10n_get (desc_l10n m) ko;
          col_geometry_x := gx;
          col_geometry_y := gy;
          col_level := level m;
          col_quest_uid := questUid m;
          col_items_uid := nonempty_or_None (itemsUid m);
          col_images := nonempty_or_None (imgs m);
          col_updated_at := updated m;
          col_synced_at := Some now;
          col_is_verified := false;
          col_verification_distance := None |}.

(** Two primary keys collide when both are non-[NULL] and equal. *)
Definition same_key (u : option string) (r : marker_row) : bool :=
  match u, col_uid r with
  | Some a, Some b => String.eqb a b
  | _, _ => false
  end.

(** [INSERT OR REPLACE]: the rows with the same key are deleted, the new
    row is inserted. *)
Definition insert_or_replace (row : marker_row) (t : list marker_row)
    : list marker_row :=
  List.filter (fun r => negb (same_key (col_uid row) r)) t ++ [row].

(** [DELETE FROM marker_images WHERE marker_uid = ?]; comparing with
    [NULL] selects nothing. *)
Definition delete_images (u : option string) (t : list image_row)
    : list image_row :=
  match u with
  | Some a => List.filter (fun r => negb (String.eqb (mi_marker_uid r) a)) t
  | None => t
  end.

(** The id that [AUTOINCREMENT] assigns next. *)
Definition next_image_id (d : db) : nat :=
  S (Nat.max (marker_images_seq d) (list_max (List.map mi_id (marker_images d)))).

(** [INSERT INTO marker_images (...) VALUES (?, ?, ?, ?, ?)]. *)
Definition insert_image (u : option string) (idx : nat) (i : image) (d : db)
    : result db :=
  mu ← not_null "marker_images.marker_uid" u;
  url ← not_null "marker_images.image_url" (img i);
  let id := next_image_id d in
  mret {| markers := markers d;
          marker_images :=
            marker_images d ++
            [{| mi_id := id;
                mi_marker_uid := mu;
                mi_image_url := url;
                mi_image_name := img_name i;
                mi_image_description := img_desc i;
                mi_display_order := idx |}];
          marker_images_seq := id |}.

(** [for idx, img in enumerate(imgs): INSERT ...], starting at [idx]. *)
Fixpoint insert_images (u : option string) (idx : nat) (l : list image)
    (d : db) : result db :=
  match l with
  | [] => Ok d
  | i :: l' =>
      d' ← insert_image u idx i d;
      insert_images u (S idx) l' d'
  end.

(** The "Sync images to separate table" block. *)
Definition sync_images (m : marker) (d : db) : result db :=
  match nonempty_or_None (imgs m) with
  | Some l =>
      let d1 := {| markers := markers d;
                   marker_images := delete_images (uid m) (marker_images d);
                   marker_images_seq := marker_images_seq d |} in
      insert_images (uid m) 0 l d1
  | None => Ok d
  end.

(** *** The loop *)

(** One iteration; the state is the database seen through the open
    connection and [synced_count]. [now k] is what [datetime('now')]
    reads at the upsert executed when [synced_count = k]. *)
Definition sync_one (now : nat -> Z) (map_name : string)
    (st : db * nat) (m : marker) : result (db * nat) :=
  let d := fst st in
  let synced_count := snd st in
  match geometry m with
  | Some g =>
      if truthy_geometry (Some g) then
        row ← marker_values (now synced_count) map_name m g;
        let d1 := {| markers := insert_or_replace row (markers d);
                     marker_images := marker_images d;
                     marker_images_seq := marker_images_seq d |} in
        d2 ← sync_images m d1;
        mret (d2, S synced_count)
      else Ok st
  | None => Ok st
  end.

Fixpoint sync_loop (now : nat -> Z) (map_name : string)
    (ms : list marker) (st : db * nat) : result (db * nat) :=
  match ms with
  | [] => Ok st
  | m :: ms' =>
      st' ← sync_one now map_name st m;
      sync_loop now map_name ms' st'
  end.

(** [sync_markers]: the committed database and the returned count, or the
    exception that escapes (nothing is committed then). *)
Definition sync_markers (now : nat -> Z) (ms : list marker)
    (map_name : string) (d : db) : result (db * nat) :=
  sync_loop now map_name ms (d, 0%nat).

(** The database on disk after a call. *)
Definition db_after (d : db) (r : result (db * nat)) : db :=
  match r with
  | Ok (d', _) => d'
  | Raise _ => d
  end.

End Sync.

(** ** Sample data *)

Module Samples.
Import Verify.
Local Open Scope R_scope.

Definition at_ (u : string) (px py : R) : MarkerPosition :=
  {| uid := u; name := u; x := px; y := py; category := "Quests";
     sub_category := ""; map_name := "woods"; level := None |}.

(** One map, one primary entry, one secondary entry. *)
Definition one_each (a w : MarkerPosition) : MarkerVerifier :=
  {| api_markers := {[ "woods"%string := [a] ]};
     web_markers := {[ "woods"%string := [w] ]};
     results := [] |}.

(** No secondary data for the map. *)
Definition no_web (a : MarkerPosition) : MarkerVerifier :=
  {| api_markers := {[ "woods"%string := [a] ]};
     web_markers := ∅;
     results := [] |}.

(** [n] copies of one primary entry, all five units away from the
    secondary entry of the same uid. *)
Definition far_apart (n : nat) : MarkerVerifier :=
  {| api_markers := {[ "woods"%string := replicate n (at_ "A" 0 0) ]};
     web_markers := {[ "woods"%string := [at_ "A" 3 4] ]};
     results := [] |}.

End Samples.

(** ** Vocabulary for the sync properties *)

Module SyncSpec.
Import Exn Sync.

Definition is_present {A : Type} (o : option A) : bool :=
  match o with Some _ => true | None => false end.

(** The record passes the [if not geometry: continue] guard. *)
Definition has_geometry (m : marker) : bool := truthy_geometry (geometry m).

(** The image rows of the record satisfy the [NOT NULL] constraints. *)
Definition images_insertable (m : marker) : bool :=
  match nonempty_or_None (imgs m) with
  | Some l => is_present (uid m) && forallb (fun i => is_present (img i)) l
  | None => true
  end.

(** Every statement run for the record satisfies its constraints. *)
Definition insertable (m : marker) : bool :=
  is_present (category m) && is_present (name m) &&
  match geometry m with
  | Some g => is_present (x g) && is_present (y g)
  | None => false
  end &&
  images_insertable m.

(** An image row without its surrogate id. *)
Definition image_content (r : image_row)
    : string * string * option string * option string * nat :=
  (mi_marker_uid r, mi_image_url r, mi_image_name r,
   mi_image_description r, mi_display_order r).

(** The image rows of one marker. *)
Definition images_of (u : string) (t : list image_row) : list image_row :=
  List.filter (fun r => String.eqb (mi_marker_uid r) u) t.

(** The content of the rows inserted for [imgs], counting from [idx]. *)
Fixpoint expected_images (u : string) (idx : nat) (l : list image)
    : list (string * string * option string * option string * nat) :=
  match l with
  | [] => []
  | i :: l' =>
      match img i with
      | Some url =>
          (u, url, img_name i, img_desc i, idx) :: expected_images u (S idx) l'
      | None => []
      end
  end.

(** The verification state of a row. *)
Definition verification_state (r : marker_row) : bool * option R :=
  (col_is_verified r, col_verification_distance r).

(** The columns of a row that the upsert binds from the record. *)
Definition row_source_fields (r : marker_row) :=
  (col_uid r, col_map r, Some (col_category r), col_sub_category r,
   Some (col_name r), col_name_ko r, col_name_ru r, col_description r,
   col_description_ko r, Some (col_geometry_x r), Some (col_geometry_y r),
   col_level r, col_quest_uid r, col_items_uid r, col_images r,
   col_updated_at r).

(** The sixteen values bound by the upsert. *)
Definition payload_source_fields (map_name : string) (m : marker) (g : point) :=
  (uid m, map_name, category m, subCategory m, name m,
   l10n_get (name_l10n m) ko, l10n_get (name_l10n m) ru, desc m,
   l10n_get (desc_l10n m) ko, x g, y g, level m, questUid m,
   nonempty_or_None (itemsUid m), nonempty_or_None (imgs m), updated m).

(** The same row with another [synced_at]. *)
Definition set_synced_at (t : Z) (r : marker_row) : marker_row :=
  {| col_uid := col_uid r; col_map := col_map r;
     col_category := col_category r; col_sub_category := col_sub_category r;
     col_name := col_name r; col_name_ko := col_name_ko r;
     col_name_ru := col_name_ru r; col_description := col_description r;
     col_description_ko := col_description_ko r;
     col_geometry_x := col_geometry_x r; col_geometry_y := col_geometry_y r;
     col_level := col_level r; col_quest_uid := col_quest_uid r;
     col_items_uid := col_items_uid r; col_images := col_images r;
     col_updated_at := col_updated_at r; col_synced_at := Some t;
     col_is_verified := col_is_verified r;
     col_verification_distance := col_verification_distance r |}.

End SyncSpec.

Module SyncSamples.
Import Exn Sync.
Local Open Scope R_scope.

Definition payload (u : string) (g : option point)
    (pictures : option (list image)) : marker :=
  {| uid := Some u; category := Some "Quests"%string; subCategory := None;
     name := Some "Cache"%string; name_l10n := None; desc := None;
     desc_l10n := None; geometry := g; level := None; questUid := None;
     itemsUid := None; imgs := pictures; updated := None |}.

Definition here : option point := Some {| x := Some 1; y := Some 2 |}.

Definition photo (url : string) : image :=
  {| img := Some url; img_name := None; img_desc := None |}.

(** A stored row that a verification pass has marked. *)
Definition verified_row (u : string) : marker_row :=
  {| col_uid := Some u; col_map := "woods"; col_category := "Quests";
     col_sub_category := None; col_name := "Cache"; col_name_ko := None;
     col_name_ru := None; col_description := None;
     col_description_ko := None; col_geometry_x := 1; col_geometry_y := 2;
     col_level := None; col_quest_uid := None; col_items_uid := None;
     col_images := Some [photo "a.png"]; col_updated_at := None;
     col_synced_at := Some 100%Z; col_is_verified := true;
     col_verification_distance := Some 2 |}.

Definition stored_image (id : nat) (u url : string) : image_row :=
  {| mi_id := id; mi_marker_uid := u; mi_image_url := url;
     mi_image_name := None; mi_image_description := None;
     mi_display_order := 0 |}.

Definition empty_db : db :=
  {| markers := []; marker_images := []; marker_images_seq := 0 |}.

Definition verified_db : db :=
  {| markers := [verified_row "m1"];
     marker_images := [stored_image 1 "m1" "a.png"];
     marker_images_seq := 1 |}.

Definition clock (t : Z) : nat -> Z := fun _ => t.

End SyncSamples.

(** ** Vocabulary for the report properties *)

Module ReportSpec.
Import Verify.

(** The result belongs to map [k]. *)
Definition on_map (k : string) (r : VerificationResult) : bool :=
  String.eqb (result_map_name r) k.

(** The [else] branch of the grouping loop. *)
Definition is_unclassified (r : VerificationResult) : bool :=
  negb (is_match r) && negb (truthy_opt_float (distance r)).

(** The counters that a list of results of one map adds up to. *)
Definition counters_of (l : list VerificationResult) : map_counters :=
  {| bm_total := length l;
     bm_matched := count_if is_match l;
     bm_discrepancies := count_if is_discrepancy l;
     bm_missing := count_if is_unclassified l |}.

End ReportSpec.

(** ** Vocabulary for the store invariants *)

Module StoreSpec.
Import Exn Sync.

(** The non-[NULL] primary keys of [markers], in row order. *)
Definition marker_keys (t : list marker_row) : list string :=
  omap col_uid t.

(** The ids of [marker_images], in row order. *)
Definition image_ids (t : list image_row) : list nat :=
  List.map mi_id t.

(** A toy instance of the three library calls of the decoder: the bytes
    are the text itself, and only the empty text is rejected. *)
Definition toy_b64decode (s : string) : result string :=
  match s with
  | EmptyString => Raise BinasciiError
  | _ => Ok s
  end.

(** How the image table may change in a sync: distinct ids stay distinct,
    the sequence does not go back, and every row that is new has an id
    above the old sequence value. *)
Definition images_advance (d d' : db) : Prop :=
  (NoDup (image_ids (marker_images d)) ->
   NoDup (image_ids (marker_images d'))) /\
  marker_images_seq d <= marker_images_seq d' /\
  forall r, r ∈ marker_images d' ->
            r ∈ marker_images d \/ marker_images_seq d < mi_id r.

End StoreSpec.

(** ** Quest sync ([MarkerSyncService.sync_quests]) *)

Module Quests.
Import Exn.

(** A quest record of the remote API. *)
Record quest : Type := mkQuest {
  uid : option string;
  bsgId : option string;
  name : option string;
  ruName : option string;
  trader : option string;
  type : option string;
  wikiUrl : option string;
  reqLevel : option Z;
  reqLL : option Z;
  reqRep : option R;
  requiredForKappa : option bool;
  active : option bool;
  enObjectives : option (list string);
  ruObjectives : option (list string);
  updated : option string
}.

(** A row of [quests]: [uid TEXT PRIMARY KEY], [bsg_id TEXT UNIQUE NOT
    NULL], [name TEXT NOT NULL]. *)
Record quest_row : Type := mkQuestRow {
  q_uid : option string;
  q_bsg_id : string;
  q_name : string;
  q_name_ru : option string;
  q_name_ko : option string;
  q_trader : option string;
  q_type : option string;
  q_wiki_url : option string;
  q_required_level : option Z;
  q_required_loyalty_level : option Z;
  q_required_reputation : option R;
  q_required_for_kappa : option bool;
  q_is_active : option bool;
  q_objectives_en : option (list string);
  q_objectives_ru : option (list string);
  q_updated_at : option string;
  q_synced_at : option Z
}.

(** The row built by [INSERT OR REPLACE INTO quests]: fifteen bound
    values and [datetime('now')]; [name_ko] is not named and gets its
    default, [NULL]. *)
Definition quest_values (now : Z) (q : quest) : result quest_row :=
  b ← Sync.not_null "quests.bsg_id" (bsgId q);
  n ← Sync.not_null "quests.name" (name q);
  mret {| q_uid := uid q;
          q_bsg_id := b;
          q_name := n;
          q_name_ru := ruName q;
          q_name_ko := None;
          q_trader := trader q;
          q_type := type q;
          q_wiki_url := wikiUrl q;
          q_required_level := reqLevel q;
          q_required_loyalty_level := reqLL q;
          q_required_reputation := reqRep q;
          q_required_for_kappa := Some (default false (requiredForKappa q));
          q_is_active := Some (default true (active q));
          q_objectives_en := Sync.nonempty_or_None (enObjectives q);
          q_objectives_ru := Sync.nonempty_or_None (ruObjectives q);
          q_updated_at := updated q;
          q_synced_at := Some now |}.

(** A stored row collides with a new one on the primary key (both
    non-[NULL] and equal) or on the unique [bsg_id]. *)
Definition same_uid (row r : quest_row) : bool :=
  match q_uid row, q_uid r with
  | Some a, Some b => String.eqb a b
  | _, _ => false
  end.

Definition conflicts (row r : quest_row) : bool :=
  same_uid row r || String.eqb (q_bsg_id row) (q_bsg_id r).

(** [INSERT OR REPLACE]: every colliding row is deleted, the new row is
    inserted. *)
Definition insert_or_replace (row : quest_row) (t : list quest_row)
    : list quest_row :=
  List.filter (fun r => negb (conflicts row r)) t ++ [row].

(** One iteration; the state is the table and [synced_count]. *)
Definition sync_quest (now : nat -> Z) (st : list quest_row * nat)
    (q : quest) : result (list quest_row * nat) :=
  row ← quest_values (now (snd st)) q;
  mret (insert_or_replace row (fst st), S (snd st)).

Fixpoint sync_quests_loop (now : nat -> Z) (qs : list quest)
    (st : list quest_row * nat) : result (list quest_row * nat) :=
  match qs with
  | [] => Ok st
  | q :: qs' =>
      st' ← sync_quest now st q;
      sync_quests_loop now qs' st'
  end.

(** [sync_quests]: the committed table and the returned count, or the
    exception that escapes (nothing is committed then). *)
Definition sync_quests (now : nat -> Z) (qs : list quest)
    (t : list quest_row) : result (list quest_row * nat) :=
  sync_quests_loop now qs (t, 0%nat).

End Quests.

(** ** Fetching and the full sync ([fetch_markers], [fetch_quests],
    [update_sync_metadata], [init_database], [full_sync]) *)

Module FullSync.
Import Exn.

Definition SUPPORTED_MAPS : list string :=
  ["customs"; "factory"; "interchange"; "labs"; "lighthouse";
   "reserve"; "shoreline"; "streets"; "woods"; "ground-zero"]%string.

(** The database file: the tables of the marker sync, [quests] and
    [sync_metadata] (key, value and update time). *)
Record store : Type := mkStore {
  tables : Sync.db;
  quests : list Quests.quest_row;
  sync_metadata : gmap string (string * Z)
}.

Definition empty_store : store :=
  {| tables := {| Sync.markers := []; Sync.marker_images := [];
                  Sync.marker_images_seq := 0 |};
     quests := [];
     sync_metadata := ∅ |}.

(** [INSERT OR REPLACE INTO sync_metadata (key, value, updated_at)]. *)
Definition update_sync_metadata (now : Z) (key value : string) (s : store)
    : store :=
  {| tables := tables s;
     quests := quests s;
     sync_metadata := <[key := (value, now)]> (sync_metadata s) |}.

(** [init_database] on a file that may not exist yet ([None]): the
    schema is created where missing and [schema_version] is recorded. *)
Definition init_database (now : Z) (file : option store) : store :=
  update_sync_metadata now "schema_version" "1.0"
    (default empty_store file).

(** [data.get(field, "")], [decode] and [json.loads] after a response
    was received; [if not x: return []] holds for [None] and [""]. *)
Definition decode_payload {A : Type} (decode : string -> option string)
    (loads : string -> result (list A)) (field : option string)
    : result (list A) :=
  match field with
  | None => Ok []
  | Some encoded =>
      if String.eqb encoded "" then Ok []
      else
        match decode encoded with
        | None => Ok []
        | Some decoded_json =>
            if String.eqb decoded_json "" then Ok []
            else loads decoded_json
        end
  end.

Section service.
(** The library calls of the decoder. *)
Variable bytes : Type.
Variable b64decode : string -> result bytes.
Variable decode_utf8 : bytes -> result string.
Variable unquote : string -> result string.
(** The HTTP requests: [raise_for_status] may raise; otherwise the named
    field of the JSON envelope, if present. *)
Variable get_markers : string -> result (option string).
Variable get_quests : result (option string).
(** [json.loads] at the two record types. *)
Variable loads_markers : string -> result (list Sync.marker).
Variable loads_quests : string -> result (list Quests.quest).
(** The clock: per map and upsert, per quest upsert, per metadata
    update; and [datetime.now().isoformat()]. *)
Variable now_markers : string -> nat -> Z.
Variable now_quests : nat -> Z.
Variable now_metadata : nat -> Z.
Variable isoformat_now : string.

Definition fetch_markers (map_name : string) : result (list Sync.marker) :=
  data ← get_markers map_name;
  decode_payload (Decoder.decode bytes b64decode decode_utf8 unquote)
    loads_markers data.

Definition fetch_quests : result (list Quests.quest) :=
  data ← get_quests;
  decode_payload (Decoder.decode bytes b64decode decode_utf8 unquote)
    loads_quests data.

(** The body of the [try] of the map loop. *)
Definition sync_map (map_name : string) (s : store)
    : result (store * nat) :=
  markers ← fetch_markers map_name;
  r ← Sync.sync_markers (now_markers map_name) markers map_name (tables s);
  mret ({| tables := fst r; quests := quests s;
           sync_metadata := sync_metadata s |}, snd r).

(** One iteration of the map loop; the state is the store and
    [total_markers]. An exception is logged and the loop goes on. *)
Definition map_step (st : store * nat) (map_name : string) : store * nat :=
  match sync_map map_name (fst st) with
  | Ok (s', count) => (s', (snd st + count)%nat)
  | Raise _ => st
  end.

(** The body of the [try] around the quest sync. *)
Definition sync_all_quests (s : store)
    : result (list Quests.quest_row * nat) :=
  qs ← fetch_quests;
  Quests.sync_quests now_quests qs (quests s).

(** The [try] around the quest sync; [total_quests] starts at 0. *)
Definition quests_step (s : store) : store * nat :=
  match sync_all_quests s with
  | Ok (t, count) =>
      ({| tables := tables s; quests := t;
          sync_metadata := sync_metadata s |}, count)
  | Raise _ => (s, 0%nat)
  end.

(** [maps or SUPPORTED_MAPS]. *)
Definition maps_to_sync (maps : option (list string)) : list string :=
  match maps with
  | Some (m :: l) => m :: l
  | _ => SUPPORTED_MAPS
  end.

(** [full_sync]: the store afterwards and the returned pair
    [(markers, quests)]. *)
Definition full_sync (maps : option (list string)) (file : option store)
    : store * (nat * nat) :=
  let s0 := match file with
            | Some s => s
            | None => init_database (now_metadata 0) None
            end in
  let st1 := foldl map_step (s0, 0%nat) (maps_to_sync maps) in
  let st2 := quests_step (fst st1) in
  let total_markers := snd st1 in
  let total_quests := snd st2 in
  let s3 := update_sync_metadata (now_metadata 1) "last_full_sync"
              isoformat_now (fst st2) in
  let s4 := update_sync_metadata (now_metadata 2) "total_markers"
              (pretty total_markers) s3 in
  let s5 := update_sync_metadata (now_metadata 3) "total_quests"
              (pretty total_quests) s4 in
  (s5, (total_markers, total_quests)).

End service.

End FullSync.

(** ** Vocabulary for the quest and full-sync properties *)

Module QuestSpec.
Import Exn Quests.

(** The record satisfies the two [NOT NULL] constraints. *)
Definition quest_insertable (q : quest) : bool :=
  SyncSpec.is_present (bsgId q) && SyncSpec.is_present (name q).

(** The non-[NULL] primary keys and the business keys of [quests]. *)
Definition quest_uids (t : list quest_row) : list string := omap q_uid t.
Definition quest_bsg_ids (t : list quest_row) : list string :=
  List.map q_bsg_id t.



Definition sample_quest (u b : string) : quest :=
  {| uid := Some u; bsgId := Some b; name := Some "Debut"%string;
     ruName := None; trader := None; type := None; wikiUrl := None;
     reqLevel := None; reqLL := None; reqRep := None;
     requiredForKappa := None; active := None; enObjectives := None;
     ruObjectives := None; updated := None |}.

Definition sample_quest_row (u b : string) (ko : option string)
    : quest_row :=
  {| q_uid := Some u; q_bsg_id := b; q_name := "Debut"; q_name_ru := None;
     q_name_ko := ko; q_trader := None; q_type := None; q_wiki_url := None;
     q_required_level := None; q_required_loyalty_level := None;
     q_required_reputation := None; q_required_for_kappa := Some false;
     q_is_active := Some true; q_objectives_en := None;
     q_objectives_ru := None; q_updated_at := None;
     q_synced_at := Some 100%Z |}.

End QuestSpec.

(** ** Fetching for the verifier and the command line run
    ([fetch_api_markers], [main]) *)

Module VerifyRun.
Import Exn Verify.
Local Open Scope R_scope.

(** The [MarkerPosition] built for a record with geometry [g]; absent
    keys take the defaults of the [get] calls. *)
Definition to_position (map : string) (m : Sync.marker) (g : Sync.point)
    : MarkerPosition :=
  {| uid := default ""%string (Sync.uid m);
     name := default ""%string (Sync.name m);
     x := default 0 (Sync.x g);
     y := default 0 (Sync.y g);
     category := default ""%string (Sync.category m);
     sub_category := default ""%string (Sync.subCategory m);
     map_name := map;
     level := Sync.level m |}.

(** The conversion loop: records without geometry are left out. *)
Definition positions_of (map : string) (markers_data : list Sync.marker)
    : list MarkerPosition :=
  omap (fun m =>
          match Sync.geometry m with
          | Some g =>
              if Sync.truthy_geometry (Some g)
              then Some (to_position map m g) else None
          | None => None
          end) markers_data.

Definition set_api_markers (v : MarkerVerifier) (map : string)
    (l : list MarkerPosition) : MarkerVerifier :=
  {| api_markers := <[map := l]> (api_markers v);
     web_markers := web_markers v;
     results := results v |}.

Definition set_web_markers (v : MarkerVerifier) (map : string)
    (l : list MarkerPosition) : MarkerVerifier :=
  {| api_markers := api_markers v;
     web_markers := <[map := l]> (web_markers v);
     results := results v |}.

(** What ends a run early: an exception of a call, or the division of
    the summary line. *)
Inductive run_error : Type :=
| Propagated (e : exn)
| ZeroDivisionError.

Section run.
Variable bytes : Type.
Variable b64decode : string -> result bytes.
Variable decode_utf8 : bytes -> result string.
Variable unquote : string -> result string.
(** The HTTP request ([raise_for_status] may raise) and [json.loads]. *)
Variable get_markers : string -> result (option string).
Variable loads_markers : string -> result (list Sync.marker).
(** [extract_web_markers], when playwright is available: the positions
    read off the rendered page (exceptions while reading are caught and
    leave the list empty), or the exception of the browser launch. *)
Variable PLAYWRIGHT_AVAILABLE : bool.
Variable read_page : string -> result (list MarkerPosition).

(** [fetch_api_markers]: the returned list and the verifier afterwards.
    The two early returns do not touch [api_markers]. *)
Definition fetch_api_markers (map : string) (v : MarkerVerifier)
    : result (list MarkerPosition * MarkerVerifier) :=
  data ← get_markers map;
  match data with
  | None => Ok ([], v)
  | Some encoded_markers =>
      if String.eqb encoded_markers "" then Ok ([], v)
      else
        match Decoder.decode bytes b64decode decode_utf8 unquote
                encoded_markers with
        | None => Ok ([], v)
        | Some decoded_json =>
            if String.eqb decoded_json "" then Ok ([], v)
            else
              markers_data ← loads_markers decoded_json;
              let markers := positions_of map markers_data in
              mret (markers, set_api_markers v map markers)
        end
  end.

(** [extract_web_markers] as called from [main]. *)
Definition extract_web_markers (map : string) (v : MarkerVerifier)
    : result MarkerVerifier :=
  if PLAYWRIGHT_AVAILABLE then
    markers ← read_page map;
    mret (set_web_markers v map markers)
  else Ok v.

(** The body of the map loop of [main]. *)
Definition verify_map (tolerance : R) (category_filter : option string)
    (v : MarkerVerifier) (map : string) : result MarkerVerifier :=
  r ← fetch_api_markers map v;
  v2 ← extract_web_markers map (snd r);
  mret (snd (compare_positions v2 map tolerance category_filter)).

Fixpoint verify_maps (tolerance : R) (category_filter : option string)
    (maps : list string) (v : MarkerVerifier) : result MarkerVerifier :=
  match maps with
  | [] => Ok v
  | map :: maps' =>
      v' ← verify_map tolerance category_filter v map;
      verify_maps tolerance category_filter maps' v'
  end.

(** The last lines of [main]: [matched / total * 100]. *)
Definition summary_percentage (v : MarkerVerifier)
    : option R :=
  let total := length (results v) in
  let matched := count_if is_match (results v) in
  if Nat.eqb total 0 then None
  else Some (INR matched / INR total * 100).

(** The map branch of [main] for a non-empty map list and without
    [--save-db], from a fresh verifier: the report that was written, and
    the percentage printed last. *)
Definition main_maps (pandas_available jinja_available : bool)
    (maps : list string) (tolerance : R) (category_filter : option string)
    (format : string)
    : sum run_error (report_output * R) :=
  match verify_maps tolerance category_filter maps
          {| api_markers := ∅; web_markers := ∅; results := [] |} with
  | Raise e => inl (Propagated e)
  | Ok v =>
      let report := generate_report pandas_available jinja_available
                      format v in
      match summary_percentage v with
      | None => inl ZeroDivisionError
      | Some pct => inr (report, pct)
      end
  end.

End run.

End VerifyRun.

(** ** Saving results ([MarkerVerifier.save_to_sqlite]) *)

Module SaveResults.
Import Verify.
Local Open Scope R_scope.

(** A value bound to a statement: [None], [str], [float], or [bool] and
    [int]. *)
Inductive value : Type :=
| VNull
| VText (s : string)
| VReal (r : R)
| VInt (z : Z).

(** The table [verification_results]: its columns, its rows in rowid
    order (each the values stored by name; a column not named by the
    insert keeps its default), and the largest rowid ever used, which
    [AUTOINCREMENT] keeps. *)
Record table : Type := mkTable {
  t_columns : list string;
  t_rows : list (list (string * value));
  t_seq : nat
}.

(** The columns of [CREATE TABLE IF NOT EXISTS verification_results] in
    [save_to_sqlite]. *)
Definition verifier_columns : list string :=
  ["id"; "marker_uid"; "marker_name"; "map_name"; "verified_at";
   "api_x"; "api_y"; "web_x"; "web_y"; "distance"; "is_match"; "error";
   "screenshot_path"]%string.

(** The columns of the same table in [SCHEMA_SQL] of the sync script,
    which [init_database] creates in the same database file. *)
Definition sync_script_columns : list string :=
  ["id"; "marker_uid"; "verified_at"; "api_x"; "api_y"; "web_x"; "web_y";
   "distance"; "is_match"; "screenshot_path"; "notes"]%string.

(** [CREATE TABLE IF NOT EXISTS] with the given columns. *)
Definition create_if_not_exists (cols : list string) (t : option table)
    : table :=
  match t with
  | Some t => t
  | None => {| t_columns := cols; t_rows := []; t_seq := 0 |}
  end.

Definition opt_real (o : option R) : value :=
  match o with Some r => VReal r | None => VNull end.
Definition opt_text (o : option string) : value :=
  match o with Some s => VText s | None => VNull end.

(** The twelve named columns and the values bound to them. *)
Definition bound_values (verified_at : string) (result : VerificationResult)
    : list (string * value) :=
  [("marker_uid"%string, VText (marker_uid result));
   ("marker_name"%string, VText (marker_name result));
   ("map_name"%string, VText (result_map_name result));
   ("verified_at"%string, VText verified_at);
   ("api_x"%string, VReal (api_x result));
   ("api_y"%string, VReal (api_y result));
   ("web_x"%string, opt_real (web_x result));
   ("web_y"%string, opt_real (web_y result));
   ("distance"%string, opt_real (distance result));
   ("is_match"%string, VInt (if is_match result then 1 else 0)%Z);
   ("error"%string, opt_text (error result));
   ("screenshot_path"%string, opt_text (screenshot_path result))].

(** The columns that the insert names. *)
Definition named_columns : list string :=
  ["marker_uid"; "marker_name"; "map_name"; "verified_at"; "api_x";
   "api_y"; "web_x"; "web_y"; "distance"; "is_match"; "error";
   "screenshot_path"]%string.

(** The row stored for the result at index [i] when the sequence stood
    at [seq] before the first insert. *)
Definition stored_row (verified_at : nat -> string) (seq : nat) (i : nat)
    (result : VerificationResult) : list (string * value) :=
  ("id"%string, VInt (Z.of_nat (S (seq + i))))
  :: bound_values (verified_at i) result.

(** A call returns or raises [sqlite3.OperationalError] for a column the
    table does not have. *)
Inductive outcome (A : Type) : Type :=
| Returned (a : A)
| OperationalError (no_column_named : string).
Arguments Returned {A} a.
Arguments OperationalError {A} no_column_named.

Definition has_column (t : table) (c : string) : bool :=
  bool_decide (c ∈ t_columns t).

(** [INSERT INTO verification_results (...) VALUES (...)]: every named
    column must exist; the row gets the next rowid. *)
Definition insert (named : list (string * value)) (t : table)
    : outcome table :=
  match List.find (fun cv => negb (has_column t (fst cv))) named with
  | Some cv => OperationalError (fst cv)
  | None =>
      let id := S (t_seq t) in
      Returned {| t_columns := t_columns t;
                  t_rows := t_rows t ++ [("id"%string, VInt (Z.of_nat id))
                                          :: named];
                  t_seq := id |}
  end.

(** The insert loop; [verified_at i] is [verified_at.isoformat()] of the
    result at index [i] of [self.results]. *)
Fixpoint insert_results (verified_at : nat -> string) (i : nat)
    (rs : list VerificationResult) (t : table) : outcome table :=
  match rs with
  | [] => Returned t
  | r :: rs' =>
      match insert (bound_values (verified_at i) r) t with
      | Returned t' => insert_results verified_at (S i) rs' t'
      | OperationalError c => OperationalError c
      end
  end.

(** [save_to_sqlite] on a database whose table may not exist yet: the
    committed table, or the exception (the inserts are rolled back). *)
Definition save_to_sqlite (verified_at : nat -> string) (v : MarkerVerifier)
    (file : option table) : outcome table :=
  insert_results verified_at 0 (results v)
    (create_if_not_exists verifier_columns file).

(** What [init_database] of the sync script leaves for this table. *)
Definition init_database_table (file : option table) : table :=
  create_if_not_exists sync_script_columns file.

End SaveResults.

(** ** Verifying one marker ([MarkerVerifier.verify_single_marker]) *)

Module VerifySingle.
Import Exn Verify.

Definition SUPPORTED_MAPS : list string :=
  ["customs"; "factory"; "interchange"; "labs"; "lighthouse";
   "reserve"; "shoreline"; "streets"; "woods"; "ground-zero"]%string.

Definition msg_not_in_dom : string := "Marker element not found in DOM".

Section single.
Variable bytes : Type.
Variable b64decode : string -> result bytes.
Variable decode_utf8 : bytes -> result string.
Variable unquote : string -> result string.
Variable get_markers : string -> result (option string).
Variable loads_markers : string -> result (list Sync.marker).
Variable PLAYWRIGHT_AVAILABLE : bool.
(** The browser: launching it and opening a page (outside the [try]);
    loading the map page and looking for the element of a uid; saving a
    screenshot and giving its path. And [str(e)]. *)
Variable open_page : result unit.
Variable find_element : string -> string -> result bool.
Variable save_screenshot : string -> result string.
Variable str_of_exn : exn -> string.

(** [if map_name not in self.api_markers: await fetch_api_markers]. *)
Definition fetch_if_missing (map : string) (v : MarkerVerifier)
    : result MarkerVerifier :=
  match api_markers v !! map with
  | Some _ => Ok v
  | None =>
      r ← VerifyRun.fetch_api_markers bytes b64decode decode_utf8 unquote
            get_markers loads_markers map v;
      mret (snd r)
  end.

(** The search loop over the maps: the marker found, with its map, and
    the verifier afterwards. *)
Fixpoint find_marker (marker_uid : string) (maps : list string)
    (v : MarkerVerifier)
    : result (option (MarkerPosition * string) * MarkerVerifier) :=
  match maps with
  | [] => Ok (None, v)
  | map :: maps' =>
      v1 ← fetch_if_missing map v;
      match List.find (fun marker => String.eqb (uid marker) marker_uid)
              (default [] (api_markers v1 !! map)) with
      | Some marker_info => Ok (Some (marker_info, map), v1)
      | None => find_marker marker_uid maps' v1
      end
  end.

(** The [try ... except Exception] around the page. *)
Definition inspect_page (marker_uid marker_map : string)
    (take_screenshot : bool) (result : VerificationResult)
    : VerificationResult :=
  let with_fields (path err : option string) :=
    {| marker_uid := Verify.marker_uid result;
       marker_name := marker_name result;
       result_map_name := result_map_name result;
       api_x := api_x result;
       api_y := api_y result;
       web_x := web_x result;
       web_y := web_y result;
       distance := distance result;
       is_match := is_match result;
       error := err;
       screenshot_path := path |} in
  match find_element marker_map marker_uid with
  | Raise e => with_fields None (Some (str_of_exn e))
  | Ok found =>
      let not_found := if found then None else Some msg_not_in_dom in
      if take_screenshot then
        match save_screenshot marker_uid with
        | Raise e => with_fields None (Some (str_of_exn e))
        | Ok path => with_fields (Some path) not_found
        end
      else with_fields None not_found
  end.

Definition verify_single_marker (marker_uid : string)
    (take_screenshot : bool) (v : MarkerVerifier)
    : result (option VerificationResult * MarkerVerifier) :=
  if negb PLAYWRIGHT_AVAILABLE then Ok (None, v)
  else
    found ← find_marker marker_uid SUPPORTED_MAPS v;
    match fst found with
    | None => Ok (None, snd found)
    | Some (marker_info, marker_map) =>
        let result :=
          {| marker_uid := marker_uid;
             marker_name := name marker_info;
             result_map_name := marker_map;
             api_x := x marker_info;
             api_y := y marker_info;
             web_x := None;
             web_y := None;
             distance := None;
             is_match := false;
             error := None;
             screenshot_path := None |} in
        _ ← open_page;
        mret (Some (inspect_page marker_uid marker_map take_screenshot
                      result), snd found)
    end.

End single.

End VerifySingle.

(** ** Vocabulary for the single-marker properties *)

Module VerifySingleSpec.
Import Verify.

(** The test of the inner search loop. *)
Definition has_uid (marker_uid : string) (marker : MarkerPosition) : bool :=
  String.eqb (uid marker) marker_uid.

(** What the fetches for the maps [map] leave alone. *)
Definition same_but (map : list string) (v v' : MarkerVerifier) : Prop :=
  results v' = results v /\ web_markers v' = web_markers v /\
  forall k, k ∉ map -> api_markers v' !! k = api_markers v !! k.

End VerifySingleSpec.

(** ** Statistics ([get_stats]) *)

Module Stats.
Import FullSync.

(** [SELECT key, COUNT ... GROUP BY key] read into a dict: one entry
    for each value of the key column, holding the number of its rows. *)
Definition count_row {A : Type} (key : A -> string)
    (acc : gmap string nat) (row : A) : gmap string nat :=
  <[key row := S (default 0%nat (acc !! key row))]> acc.

Definition group_count {A : Type} (key : A -> string) (rows : list A)
    : gmap string nat :=
  foldl (count_row key) ∅ rows.

(** [WHERE required_for_kappa = TRUE]; [NULL] is not counted. *)
Definition is_kappa (q : Quests.quest_row) : bool :=
  match Quests.q_required_for_kappa q with
  | Some b => b
  | None => false
  end.

(** The dict that [get_stats] returns. *)
Record stats : Type := mkStats {
  total_markers : nat;
  markers_by_map : gmap string nat;
  markers_by_category : gmap string nat;
  total_quests : nat;
  kappa_quests : nat;
  verified_markers : nat;
  last_full_sync : option string
}.

(** [get_stats] on a database that holds the schema. *)
Definition get_stats (s : store) : stats :=
  let rows := Sync.markers (tables s) in
  {| total_markers := length rows;
     markers_by_map := group_count Sync.col_map rows;
     markers_by_category := group_count Sync.col_category rows;
     total_quests := length (quests s);
     kappa_quests := length (List.filter is_kappa (quests s));
     verified_markers := length (List.filter Sync.col_is_verified rows);
     last_full_sync := fst <$> sync_metadata s !! "last_full_sync"%string |}.

End Stats.

(** ** Vocabulary for the statistics *)

Module StatsSpec.

(** [sum(d.values())]. *)
Definition sum_counts (d : gmap string nat) : nat :=
  map_fold (fun _ n acc => (n + acc)%nat) 0%nat d.

(** The rows whose key column holds [k]. *)
Definition keyed {A : Type} (key : A -> string) (k : string) (row : A)
    : bool :=
  String.eqb (key row) k.

End StatsSpec.

(** * Properties *)

(** ** Position verifier *)

Module VerifyFacts.
Import Verify.
Local Open Scope R_scope.

Lemma Rleb_true (a b : R) : Rleb a b = true <-> a <= b.
Proof. unfold Rleb. destruct (Rle_dec a b); split; intros; try done. Qed.

Lemma Rleb_false (a b : R) : Rleb a b = false <-> b < a.
Proof.
  unfold Rleb. destruct (Rle_dec a b); split; intros; try done; lra.
Qed.

Lemma Rltb_true (a b : R) : Rltb a b = true <-> a < b.
Proof. unfold Rltb. destruct (Rlt_dec a b); split; intros; try done. Qed.

Lemma Rltb_false (a b : R) : Rltb a b = false <-> b <= a.
Proof.
  unfold Rltb. destruct (Rlt_dec a b); split; intros; try done; lra.
Qed.

Lemma Reqb_true (a b : R) : Reqb a b = true <-> a = b.
Proof. unfold Reqb. destruct (Req_dec_T a b); split; intros; try done. Qed.

Lemma euclid_nonneg (a w : MarkerPosition) : 0 <= euclid a w.
Proof. apply sqrt_pos. Qed.

Lemma euclid_same_position (a w : MarkerPosition) :
  x a = x w -> y a = y w -> euclid a w = 0.
Proof.
  intros Hx Hy. unfold euclid. rewrite Hx, Hy.
  replace ((x w - x w) ^ 2 + (y w - y w) ^ 2) with 0 by ring.
  apply sqrt_0.
Qed.

Lemma compare_positions_empty v map tol cf :
  secondary v map = [] ->
  fst (compare_positions v map tol cf)
  = (fun a => new_result a map (Some msg_no_web)) <$> considered v map cf.
Proof.
  unfold secondary, considered, compare_positions. intros ->. reflexivity.
Qed.

Lemma compare_positions_nonempty v map tol cf :
  secondary v map <> [] ->
  fst (compare_positions v map tol cf)
  = compare_one map tol (secondary v map) (web_lookup_of (secondary v map))
      <$> considered v map cf.
Proof.
  unfold secondary, considered, compare_positions. intros H.
  destruct (default [] (web_markers v !! map)); [done | reflexivity].
Qed.

Lemma compare_positions_results v map tol cf :
  results (snd (compare_positions v map tol cf))
  = results v ++ fst (compare_positions v map tol cf).
Proof.
  unfold compare_positions.
  destruct (default [] (web_markers v !! map)); reflexivity.
Qed.

Lemma compare_positions_length v map tol cf :
  length (fst (compare_positions v map tol cf)) = length (considered v map cf).
Proof.
  unfold considered, compare_positions.
  destruct (default [] (web_markers v !! map)); simpl; by rewrite length_fmap.
Qed.


(** The nearest-neighbour loop returns the first entry of least distance. *)
Lemma nearest_loop_spec (a : MarkerPosition) (web : list MarkerPosition) :
  (web = [] /\ nearest_loop a web = (Inf, None)) \/
  (exists l1 w l2,
      web = l1 ++ w :: l2 /\
      nearest_loop a web = (Fin (euclid a w), Some w) /\
      (forall w', w' ∈ l1 -> euclid a w < euclid a w') /\
      (forall w', w' ∈ l2 -> euclid a w <= euclid a w')).
Proof.
  unfold nearest_loop. induction web as [|z web IH] using rev_ind.
  - left. done.
  - right. rewrite foldl_snoc. destruct IH as [[-> ->]|(l1&w&l2&->&->&H1&H2)].
    + exists [], z, []. simpl. repeat split; intros w' Hw'; by inversion Hw'.
    + unfold nearest_step. simpl.
      destruct (Rltb (euclid a z) (euclid a w)) eqn:Hlt.
      * apply Rltb_true in Hlt.
        exists (l1 ++ w :: l2), z, []. repeat split.
        -- intros w' Hw'. rewrite elem_of_app, elem_of_cons in Hw'.
           destruct Hw' as [Hw'|[->|Hw']]; [|done|].
           ++ specialize (H1 _ Hw'). lra.
           ++ specialize (H2 _ Hw'). lra.
        -- intros w' Hw'. by inversion Hw'.
      * apply Rltb_false in Hlt.
        exists l1, w, (l2 ++ [z]). rewrite <- app_assoc. repeat split; [done|].
        intros w' Hw'. rewrite elem_of_app, list_elem_of_singleton in Hw'.
        destruct Hw' as [Hw'| ->]; [by apply H2 | done].
Qed.

Lemma compare_one_identity map tol web a w :
  web_lookup_of web !! uid a = Some w ->
  compare_one map tol web (web_lookup_of web) a
  = accepted a map tol w (euclid a w).
Proof. unfold compare_one. intros ->. reflexivity. Qed.

Lemma compare_one_fallback map tol web a :
  web <> [] ->
  web_lookup_of web !! uid a = None ->
  exists l1 w l2,
    web = l1 ++ w :: l2 /\
    (forall w', w' ∈ l1 -> euclid a w < euclid a w') /\
    (forall w', w' ∈ l2 -> euclid a w <= euclid a w') /\
    compare_one map tol web (web_lookup_of web) a
    = if Rleb (euclid a w) (tol * 2)
      then accepted a map tol w (euclid a w)
      else new_result a map (Some msg_no_match).
Proof.
  intros Hne Hnone. unfold compare_one. rewrite Hnone.
  destruct (nearest_loop_spec a web) as [[-> _]|(l1&w&l2&Hweb&Hloop&H1&H2)];
    [done|].
  exists l1, w, l2. rewrite Hloop. repeat split; try done.
Qed.

Lemma lookup_compare_positions v map tol cf i a :
  secondary v map <> [] ->
  considered v map cf !! i = Some a ->
  fst (compare_positions v map tol cf) !! i
  = Some (compare_one map tol (secondary v map)
            (web_lookup_of (secondary v map)) a).
Proof.
  intros Hne Hi. rewrite compare_positions_nonempty by done.
  rewrite list_lookup_fmap, Hi. reflexivity.
Qed.

(** C8. With an empty secondary set for the map, [compare_positions]
    emits one result per considered primary entry, each with no secondary
    position, no distance, [is_match = False] and an error set; nothing is
    matched, whatever the tolerance. *)
Theorem empty_secondary_all_unverified v map tol cf :
  secondary v map = [] ->
  let rs := fst (compare_positions v map tol cf) in
  rs = (fun a => new_result a map
                   (Some "No web markers available for comparison"%string))
         <$> considered v map cf /\
  length rs = length (considered v map cf) /\
  (forall r, r ∈ rs ->
     web_x r = None /\ web_y r = None /\ distance r = None /\
     is_match r = false /\ truthy_opt_str (error r) = true) /\
  cs_matched (statistics rs) = 0%nat /\
  count_if is_matched rs = 0%nat.
Proof.
  intros Hempty rs. subst rs. rewrite compare_positions_empty by done.
  split; [reflexivity|]. split; [by rewrite length_fmap|].
  assert (Hall : forall l : list MarkerPosition,
             count_if is_match
               ((fun a => new_result a map (Some msg_no_web)) <$> l) = 0%nat).
  { induction l as [|a l IH]; [reflexivity | exact IH]. }
  split; [|split; [apply Hall | apply Hall]].
  intros r Hr. apply list_elem_of_fmap in Hr as (a & -> & _). done.
Qed.

Lemma empty_secondary_all_unverified_witness :
  secondary (Samples.no_web (Samples.at_ "A" 0 0)) "woods" = [] /\
  count_if is_matched
    (fst (compare_positions (Samples.no_web (Samples.at_ "A" 0 0))
            "woods" 5 None)) = 0%nat.
Proof.
  split; [reflexivity|].
  apply (empty_secondary_all_unverified
           (Samples.no_web (Samples.at_ "A" 0 0)) "woods" 5 None).
  reflexivity.
Defined.



(** C2, as the code has it. A primary entry whose uid is not in the
    secondary lookup is compared with the first secondary entry of least
    Euclidean distance [d]. If [d <= 2 * tolerance] its position and [d]
    are recorded and [is_match] is [d <= tolerance]; otherwise the result
    has no secondary position, no distance, and the error
    "No matching web marker found". *)
Theorem nearest_neighbour_fallback v map tol cf i a :
  secondary v map <> [] ->
  considered v map cf !! i = Some a ->
  web_lookup_of (secondary v map) !! uid a = None ->
  exists l1 w l2 r,
    secondary v map = l1 ++ w :: l2 /\
    (forall w', w' ∈ l1 -> euclid a w < euclid a w') /\
    (forall w', w' ∈ l2 -> euclid a w <= euclid a w') /\
    (forall w', w' ∈ secondary v map -> euclid a w <= euclid a w') /\
    fst (compare_positions v map tol cf) !! i = Some r /\
    (euclid a w <= 2 * tol ->
       web_x r = Some (x w) /\ web_y r = Some (y w) /\
       distance r = Some (euclid a w) /\
       is_match r = Rleb (euclid a w) tol /\
       (is_match r = true <-> euclid a w <= tol) /\
       error r = None) /\
    (2 * tol < euclid a w ->
       web_x r = None /\ web_y r = None /\ distance r = None /\
       is_match r = false /\
       error r = Some "No matching web marker found"%string).
Proof.
  intros Hne Hi Hnone.
  destruct (compare_one_fallback map tol _ a Hne Hnone)
    as (l1 & w & l2 & Hweb & H1 & H2 & Hone).
  exists l1, w, l2. eexists. split; [exact Hweb|].
  split; [exact H1|]. split; [exact H2|]. split.
  { intros w'. rewrite Hweb, elem_of_app, elem_of_cons.
    intros [Hw'|[->|Hw']]; [specialize (H1 _ Hw'); lra | lra | by apply H2]. }
  split; [by apply lookup_compare_positions|].
  rewrite Hone. split.
  - intros Hle. assert (Hb : Rleb (euclid a w) (tol * 2) = true)
      by (apply Rleb_true; lra).
    rewrite Hb. simpl. repeat split; try done; apply Rleb_true.
  - intros Hgt. assert (Hb : Rleb (euclid a w) (tol * 2) = false)
      by (apply Rleb_false; lra).
    rewrite Hb. done.
Qed.

Lemma euclid_3_4 : euclid (Samples.at_ "A" 0 0) (Samples.at_ "A" 3 4) = 5.
Proof.
  unfold euclid. simpl.
  match goal with |- sqrt ?e = _ => replace e with (5 * 5) by ring end.
  apply sqrt_square. lra.
Qed.

Lemma euclid_10_0 : euclid (Samples.at_ "A" 0 0) (Samples.at_ "X" 10 0) = 10.
Proof.
  unfold euclid. simpl.
  match goal with |- sqrt ?e = _ => replace e with (10 * 10) by ring end.
  apply sqrt_square. lra.
Qed.

Lemma nearest_neighbour_fallback_witness :
  let v := Samples.one_each (Samples.at_ "A" 0 0) (Samples.at_ "X" 10 0) in
  secondary v "woods" <> [] /\
  considered v "woods" None !! 0%nat = Some (Samples.at_ "A" 0 0) /\
  web_lookup_of (secondary v "woods") !! "A"%string = None /\
  exists r, fst (compare_positions v "woods" 5 None) !! 0%nat = Some r /\
            distance r = Some 10.
Proof.
  split; [discriminate|]. split; [reflexivity|]. split; [reflexivity|].
  destruct (nearest_neighbour_fallback
              (Samples.one_each (Samples.at_ "A" 0 0) (Samples.at_ "X" 10 0))
              "woods" 5 None 0%nat (Samples.at_ "A" 0 0)
              ltac:(discriminate) eq_refl eq_refl)
    as (l1 & w & l2 & r & Hweb & _ & _ & _ & Hr & Hnear & _).
  exists r. split; [exact Hr|].
  assert (Hw : w = Samples.at_ "X" 10 0).
  { destruct l1 as [|z [|z' l1]]; simpl in Hweb; [by inversion Hweb | |];
      inversion Hweb. }
  subst w. rewrite euclid_10_0 in Hnear.
  apply Hnear. lra.
Defined.

(** C2 as written fails on the error text: beyond twice the tolerance the
    result carries "No matching web marker found". *)
Lemma fallback_error_text :
  let v := Samples.one_each (Samples.at_ "A" 0 0) (Samples.at_ "X" 10 0) in
  web_lookup_of (secondary v "woods") !! "A"%string = None /\
  2 * 1 < euclid (Samples.at_ "A" 0 0) (Samples.at_ "X" 10 0) /\
  exists r, fst (compare_positions v "woods" 1 None) !! 0%nat = Some r /\
            error r = Some "No matching web marker found"%string /\
            error r <> Some "no matching element found"%string.
Proof.
  split; [reflexivity|]. split; [rewrite euclid_10_0; lra|].
  eexists. split.
  { apply lookup_compare_positions; [discriminate | reflexivity]. }
  destruct (compare_one_fallback "woods" 1
              [Samples.at_ "X" 10 0] (Samples.at_ "A" 0 0)
              ltac:(discriminate) eq_refl)
    as (l1 & w & l2 & Hweb & _ & _ & Hone).
  assert (Hw : w = Samples.at_ "X" 10 0).
  { destruct l1 as [|z [|z' l1]]; simpl in Hweb; [by inversion Hweb | |];
      inversion Hweb. }
  subst w. rewrite euclid_10_0 in Hone.
  assert (Hb : Rleb 10 (1 * 2) = false) by (apply Rleb_false; lra).
  rewrite Hb in Hone.
  change (secondary _ "woods") with [Samples.at_ "X" 10 0].
  rewrite Hone. split; [reflexivity | discriminate].
Qed.

(** *** Summary counts *)

Lemma compare_one_from_compare map tol web a :
  from_compare tol (compare_one map tol web (web_lookup_of web) a).
Proof.
  destruct (web_lookup_of web !! uid a) as [w|] eqn:Hw.
  - left. exists a, map, w, (euclid a w).
    split; [by apply compare_one_identity | apply euclid_nonneg].
  - destruct web as [|z web].
    + right. exists a, map, msg_no_match. split; [|reflexivity].
      unfold compare_one. rewrite Hw. reflexivity.
    + destruct (compare_one_fallback map tol (z :: web) a) as
        (l1 & w & l2 & _ & _ & _ & ->); [done | done |].
      destruct (Rleb (euclid a w) (tol * 2)).
      * left. exists a, map, w, (euclid a w).
        split; [reflexivity | apply euclid_nonneg].
      * right. exists a, map, msg_no_match. done.
Qed.

Lemma compare_positions_from_compare v map tol cf r :
  r ∈ fst (compare_positions v map tol cf) -> from_compare tol r.
Proof.
  destruct (secondary v map) as [|z web] eqn:Hweb.
  - rewrite compare_positions_empty by done.
    intros (a & -> & _)%list_elem_of_fmap.
    right. exists a, map, msg_no_web. done.
  - rewrite compare_positions_nonempty by (rewrite Hweb; done).
    intros (a & -> & _)%list_elem_of_fmap. apply compare_one_from_compare.
Qed.



Lemma count_if_cons {A : Type} (f : A -> bool) (a : A) (l : list A) :
  count_if f (a :: l) = (Nat.b2n (f a) + count_if f l)%nat.
Proof. unfold count_if. simpl. destruct (f a); reflexivity. Qed.

Lemma count_if_partition {A : Type} (f g h : A -> bool) (l : list A) :
  (forall r, r ∈ l -> exactly_one (f r) (g r) (h r)) ->
  (count_if f l + count_if g l + count_if h l = length l)%nat.
Proof.
  induction l as [|a l IH]; intros Hall; [reflexivity|].
  rewrite !count_if_cons. simpl.
  assert (Ha := Hall a ltac:(left)). unfold exactly_one in Ha.
  assert (Hl := IH (fun r Hr => Hall r ltac:(by right))). lia.
Qed.




(** With a negative tolerance two equal positions are no match, and the
    reports, which test the truth value of [distance], count the result
    nowhere. *)
Remark report_counts_negative_tolerance :
  let v := Samples.one_each (Samples.at_ "A" 0 0) (Samples.at_ "A" 0 0) in
  let rep :=
    _generate_json_report (snd (compare_positions v "woods" (-1) None)) in
  total_markers rep = 1%nat /\
  (matched rep + discrepancies rep + missing rep = 0)%nat.
Proof.
  intros v rep. split; [reflexivity|].
  subst rep. unfold _generate_json_report.
  rewrite compare_positions_results. simpl results at 1 2 3. simpl app.
  rewrite compare_positions_nonempty by discriminate.
  change (considered v "woods" None) with [Samples.at_ "A" 0 0].
  simpl fmap. rewrite (compare_one_identity _ _ _ _ (Samples.at_ "A" 0 0))
    by reflexivity.
  rewrite euclid_same_position by reflexivity.
  unfold matched, discrepancies, missing.
  rewrite !count_if_cons. unfold count_if.
  unfold is_matched, is_discrepancy, is_missing, accepted. simpl.
  assert (H1 : Rleb 0 (-1) = false) by (apply Rleb_false; lra).
  assert (H2 : Reqb 0 0 = true) by (by apply Reqb_true).
  rewrite H1, H2. reflexivity.
Qed.

(** *** Discrepancy details *)

Lemma group_results_details (rs : list VerificationResult) :
  snd (group_results rs) = detail_of <$> List.filter is_discrepancy rs.
Proof.
  unfold group_results. induction rs as [|r rs IH] using rev_ind;
    [reflexivity|].
  rewrite foldl_snoc, List.filter_app, fmap_app, <- IH.
  unfold group_step at 1, is_discrepancy. simpl.
  destruct (is_match r); simpl; [by rewrite app_nil_r|].
  destruct (truthy_opt_float (distance r)); simpl;
    [reflexivity | by rewrite app_nil_r].
Qed.

Lemma far_apart_results (n : nat) (tol : R) :
  fst (compare_positions (Samples.far_apart n) "woods" tol None)
  = replicate n (accepted (Samples.at_ "A" 0 0) "woods" tol
                   (Samples.at_ "A" 3 4) 5).
Proof.
  rewrite compare_positions_nonempty by discriminate.
  change (considered (Samples.far_apart n) "woods" None)
    with (replicate n (Samples.at_ "A" 0 0)).
  rewrite fmap_replicate.
  rewrite (compare_one_identity _ _ _ _ (Samples.at_ "A" 3 4)) by reflexivity.
  by rewrite euclid_3_4.
Qed.

Lemma far_apart_details (n : nat) :
  length (discrepancy_details
            (_generate_json_report
               (snd (compare_positions (Samples.far_apart n) "woods" 1 None))))
  = n.
Proof.
  unfold _generate_json_report. simpl discrepancy_details.
  rewrite group_results_details, compare_positions_results, far_apart_results.
  simpl app. rewrite length_fmap.
  assert (Hd : is_discrepancy
                 (accepted (Samples.at_ "A" 0 0) "woods" 1
                    (Samples.at_ "A" 3 4) 5) = true).
  { unfold is_discrepancy, accepted. simpl.
    assert (H1 : Rleb 5 1 = false) by (apply Rleb_false; lra).
    assert (H2 : Reqb 5 0 = false).
    { destruct (Reqb 5 0) eqn:Hz; [|done]. apply Reqb_true in Hz. lra. }
    by rewrite H1, H2. }
  induction n as [|n IH]; [reflexivity|].
  simpl. rewrite Hd. simpl. by rewrite IH.
Qed.

(** C9, as the code has it. Both reports collect a detail record for the
    discrepancy results only, in order. The HTML report renders at most
    the first 50 of them; the JSON report (also what the HTML report
    falls back to without its template engine) keeps them all. *)
Theorem discrepancy_details_cap (v : MarkerVerifier) :
  discrepancy_details (_generate_json_report v)
  = detail_of <$> List.filter is_discrepancy (results v) /\
  length (discrepancy_details (_generate_json_report v))
  = discrepancies (_generate_json_report v) /\
  (exists c,
      _generate_html_report true v = HtmlOut c /\
      h_discrepancy_details c
      = take 50 (detail_of <$> List.filter is_discrepancy (results v)) /\
      (length (h_discrepancy_details c) <= 50)%nat) /\
  _generate_html_report false v = JsonOut (_generate_json_report v).
Proof.
  split; [apply group_results_details|].
  split.
  { unfold _generate_json_report. simpl.
    by rewrite group_results_details, length_fmap. }
  split; [|reflexivity].
  eexists. split; [reflexivity|]. simpl.
  rewrite group_results_details. split; [reflexivity|].
  rewrite length_take. lia.
Qed.

(** C9 as written fails for the JSON report: its detail list grows with
    the number of discrepancies. *)
Lemma json_details_not_capped :
  length (discrepancy_details
            (_generate_json_report
               (snd (compare_positions (Samples.far_apart 51)
                       "woods" 1 None)))) = 51%nat /\
  ~ (exists bound : nat,
        forall v, (length (discrepancy_details (_generate_json_report v))
                   <= bound)%nat).
Proof.
  split; [apply far_apart_details|].
  intros (bound & Hbound).
  specialize (Hbound (snd (compare_positions (Samples.far_apart (S bound))
                             "woods" 1 None))).
  rewrite far_apart_details in Hbound. lia.
Qed.

End VerifyFacts.

(** ** Payload decoder *)

Module DecoderFacts.
Import Exn Decoder.

Lemma get_beyond (s : string) (i : nat) :
  String.length s <= i -> String.get i s = None.
Proof.
  revert i. induction s as [|c s IH]; intros i Hi; [by destruct i|].
  destruct i as [|i]; simpl in *; [lia | apply IH; lia].
Qed.

Lemma get_append (a b : string) (i : nat) :
  String.get i (a +:+ b)
  = if decide (i < String.length a) then String.get i a
    else String.get (i - String.length a) b.
Proof.
  revert i. induction a as [|c a IH]; intros i; simpl.
  - by rewrite Nat.sub_0_r.
  - destruct i as [|i]; [reflexivity|]. rewrite IH. simpl.
    repeat case_decide; try reflexivity; lia.
Qed.

Lemma length_slice_to (n : nat) (s : string) :
  String.length (slice_to n s) = Nat.min n (String.length s).
Proof.
  revert s. induction n as [|n IH]; intros [|c s]; simpl; try reflexivity.
  by rewrite IH.
Qed.

Lemma get_slice_to (n : nat) (s : string) (i : nat) :
  i < n -> String.get i (slice_to n s) = String.get i s.
Proof.
  revert s i. induction n as [|n IH]; intros [|c s] i Hi; simpl;
    try reflexivity; try lia.
  destruct i as [|i]; [reflexivity | apply IH; lia].
Qed.

Lemma get_slice_from (n : nat) (s : string) (i : nat) :
  String.get i (slice_from n s) = String.get (n + i) s.
Proof.
  revert s. induction n as [|n IH]; intros [|c s]; simpl; try reflexivity.
  apply IH.
Qed.

(** The characters at index 5 to 9 are the ones removed. *)
Lemma get_strip_noise (s : string) (i : nat) :
  String.get i (strip_noise s)
  = if decide (i < 5) then String.get i s else String.get (i + 5) s.
Proof.
  unfold strip_noise. rewrite get_append, length_slice_to, get_slice_from.
  destruct (decide (i < 5)) as [H5|H5];
    destruct (decide (i < Nat.min 5 (String.length s))) as [Hm|Hm].
  - apply get_slice_to. lia.
  - rewrite !get_beyond; [reflexivity | lia | lia].
  - lia.
  - destruct (decide (5 <= String.length s)).
    + f_equal. lia.
    + rewrite !get_beyond; [reflexivity | lia | lia].
Qed.

Lemma length_append (a b : string) :
  String.length (a +:+ b) = String.length a + String.length b.
Proof. induction a as [|c a IH]; simpl; [reflexivity | by rewrite IH]. Qed.

Lemma length_slice_from (n : nat) (s : string) :
  String.length (slice_from n s) = String.length s - n.
Proof.
  revert s. induction n as [|n IH]; intros [|c s]; simpl; try reflexivity.
  apply IH.
Qed.

Lemma length_strip_noise (s : string) :
  String.length (strip_noise s)
  = Nat.min 5 (String.length s) + (String.length s - 10).
Proof.
  unfold strip_noise.
  by rewrite length_append, length_slice_to, length_slice_from.
Qed.

Section decode_facts.
Variable bytes : Type.
Variable b64decode : string -> result bytes.
Variable decode_utf8 : bytes -> result string.
Variable unquote : string -> result string.

(** C7. [decode] takes the input without its characters at index 5 to 9,
    base64-decodes it, reads the bytes as UTF-8 and percent-decodes the
    text, and returns that; when any of the three calls raises it returns
    [None]. It returns in every case. *)
Theorem decode_returns_text_or_None (encoded : string) :
  let processed := strip_noise encoded in
  (forall i, String.get i processed
             = if decide (i < 5) then String.get i encoded
               else String.get (i + 5) encoded) /\
  String.length processed
  = Nat.min 5 (String.length encoded) + (String.length encoded - 10) /\
  ((exists raw text json_str,
       b64decode processed = Ok raw /\
       decode_utf8 raw = Ok text /\
       unquote text = Ok json_str /\
       decode bytes b64decode decode_utf8 unquote encoded = Some json_str)
   \/
   (decode bytes b64decode decode_utf8 unquote encoded = None /\
    ((exists e, b64decode processed = Raise e) \/
     (exists raw e, b64decode processed = Ok raw /\
                    decode_utf8 raw = Raise e) \/
     (exists raw text e, b64decode processed = Ok raw /\
                         decode_utf8 raw = Ok text /\
                         unquote text = Raise e)))).
Proof.
  intros processed. split; [apply get_strip_noise|].
  split; [apply length_strip_noise|].
  unfold decode, decode_body. fold processed.
  destruct (b64decode processed) as [raw|e] eqn:Hb; simpl;
    [|right; split; [reflexivity | left; by exists e]].
  destruct (decode_utf8 raw) as [text|e] eqn:Hu; simpl;
    [|right; split; [reflexivity | right; left; by exists raw, e]].
  destruct (unquote text) as [json_str|e] eqn:Hq; simpl.
  - left. by exists raw, text, json_str.
  - right. split; [reflexivity|]. right; right. by exists raw, text, e.
Qed.

End decode_facts.

End DecoderFacts.

(** ** Marker sync *)

Module SyncFacts.
Import Exn Sync SyncSpec.

Ltac monad := unfold mbind, mret, result_bind, result_ret, bind in *.

Lemma insert_images_markers u idx l d d' :
  insert_images u idx l d = Ok d' -> markers d' = markers d.
Proof.
  revert idx d. induction l as [|i l IH]; intros idx d; simpl.
  - by intros [= ->].
  - unfold insert_image, not_null. monad.
    destruct u as [mu|]; [|done]. destruct (img i) as [url|]; [|done].
    intros H. by rewrite (IH _ _ H).
Qed.

Lemma sync_images_markers m d d' :
  sync_images m d = Ok d' -> markers d' = markers d.
Proof.
  unfold sync_images. destruct (nonempty_or_None (imgs m)).
  - intros H. by rewrite (insert_images_markers _ _ _ _ _ H).
  - by intros [= ->].
Qed.

Lemma sync_one_skip now map st m :
  has_geometry m = false -> sync_one now map st m = Ok st.
Proof.
  unfold has_geometry, sync_one. destruct (geometry m); [|done].
  by intros ->.
Qed.

Lemma sync_one_stored now map d k m st' :
  has_geometry m = true ->
  sync_one now map (d, k) m = Ok st' ->
  exists g row,
    geometry m = Some g /\
    marker_values (now k) map m g = Ok row /\
    markers (fst st') = insert_or_replace row (markers d) /\
    sync_images m {| markers := insert_or_replace row (markers d);
                     marker_images := marker_images d;
                     marker_images_seq := marker_images_seq d |}
    = Ok (fst st') /\
    snd st' = S k.
Proof.
  unfold has_geometry, sync_one. destruct (geometry m) as [g|]; [|done].
  intros ->. simpl. monad.
  destruct (marker_values (now k) map m g) as [row|] eqn:Hrow; [|done].
  match goal with |- context [sync_images m ?d1] =>
    destruct (sync_images m d1) as [d2|] eqn:Himg; [|done] end.
  intros [= <-]. exists g, row. simpl.
  by rewrite (sync_images_markers _ _ _ Himg).
Qed.

Lemma sync_loop_cons now map m ms st :
  sync_loop now map (m :: ms) st
  = match sync_one now map st m with
    | Ok st' => sync_loop now map ms st'
    | Raise e => Raise e
    end.
Proof. reflexivity. Qed.




Lemma marker_values_ok t map m g :
  insertable m = true -> geometry m = Some g ->
  exists row, marker_values t map m g = Ok row.
Proof.
  unfold insertable, marker_values, not_null. intros H Hg. rewrite Hg in H.
  monad.
  destruct (category m); [|done]. destruct (name m); [|done].
  destruct (x g); [|done]. destruct (y g); [|done]. by eexists.
Qed.

Lemma insert_images_ok u idx l d :
  forallb (fun i => is_present (img i)) l = true ->
  exists d', insert_images (Some u) idx l d = Ok d'.
Proof.
  revert idx d. induction l as [|i l IH]; intros idx d; simpl;
    [by eexists|].
  intros [Hi Hl]%andb_prop. unfold insert_image, not_null. monad.
  destruct (img i); [|done]. by apply IH.
Qed.

Lemma sync_images_ok m d :
  images_insertable m = true -> exists d', sync_images m d = Ok d'.
Proof.
  unfold images_insertable, sync_images.
  destruct (nonempty_or_None (imgs m)) as [l|]; [|by eexists].
  destruct (uid m) as [u|]; [|done]. simpl. by apply insert_images_ok.
Qed.

Lemma sync_one_ok now map d k m :
  has_geometry m = true -> insertable m = true ->
  exists d', sync_one now map (d, k) m = Ok (d', S k).
Proof.
  intros Hg Hins. unfold sync_one. unfold has_geometry in Hg.
  destruct (geometry m) as [g|] eqn:Hgeo; [|done]. rewrite Hg. simpl.
  destruct (marker_values_ok (now k) map m g Hins Hgeo) as [row ->].
  assert (Himg : images_insertable m = true).
  { unfold insertable in Hins. by apply andb_prop in Hins as [_ ?]. }
  monad.
  match goal with |- context [sync_images m ?d1] =>
    destruct (sync_images_ok m d1 Himg) as [d2 ->] end.
  by eexists.
Qed.





(** *** Verification state across a sync *)

Lemma marker_values_columns t map m g row :
  marker_values t map m g = Ok row ->
  col_uid row = uid m /\
  col_synced_at row = Some t /\
  col_is_verified row = false /\
  col_verification_distance row = None.
Proof.
  unfold marker_values, not_null. monad.
  destruct (category m); [|done]. destruct (name m); [|done].
  destruct (x g); [|done]. destruct (y g); [|done].
  by intros [= <-].
Qed.

Lemma elem_of_insert_or_replace row t r :
  r ∈ insert_or_replace row t <->
  (r ∈ t /\ same_key (col_uid row) r = false) \/ r = row.
Proof.
  unfold insert_or_replace.
  rewrite elem_of_app, list_elem_of_singleton, !list_elem_of_In,
    List.filter_In, negb_true_iff.
  reflexivity.
Qed.

Lemma sync_one_rows now map d k m d1 k1 r :
  sync_one now map (d, k) m = Ok (d1, k1) ->
  r ∈ markers d1 ->
  (r ∈ markers d /\ (has_geometry m = true -> same_key (uid m) r = false)) \/
  (has_geometry m = true /\
   col_is_verified r = false /\ col_verification_distance r = None).
Proof.
  intros Hone Hr. destruct (has_geometry m) eqn:Hg.
  - destruct (sync_one_stored _ _ _ _ _ _ Hg Hone)
      as (g & row & _ & Hrow & Hmk & _ & _).
    simpl in Hmk. rewrite Hmk in Hr.
    destruct (marker_values_columns _ _ _ _ _ Hrow) as (Hu & _ & Hv & Hd).
    apply elem_of_insert_or_replace in Hr as [[Hin Hkey]| ->].
    + left. rewrite Hu in Hkey. done.
    + right. done.
  - rewrite sync_one_skip in Hone by done. injection Hone as <- <-.
    left. done.
Qed.

Lemma sync_one_keeps now map d k m d1 k1 r :
  sync_one now map (d, k) m = Ok (d1, k1) ->
  r ∈ markers d ->
  (has_geometry m = true -> same_key (uid m) r = false) ->
  r ∈ markers d1.
Proof.
  intros Hone Hr Hkey. destruct (has_geometry m) eqn:Hg.
  - destruct (sync_one_stored _ _ _ _ _ _ Hg Hone)
      as (g & row & _ & Hrow & Hmk & _ & _).
    simpl in Hmk. rewrite Hmk.
    destruct (marker_values_columns _ _ _ _ _ Hrow) as (Hu & _).
    apply elem_of_insert_or_replace. left. rewrite Hu. auto.
  - rewrite sync_one_skip in Hone by done. by injection Hone as <- <-.
Qed.

Lemma sync_loop_rows now map ms d k d' n r :
  sync_loop now map ms (d, k) = Ok (d', n) ->
  r ∈ markers d' ->
  (r ∈ markers d /\
   forall m, m ∈ ms -> has_geometry m = true -> same_key (uid m) r = false) \/
  (col_is_verified r = false /\ col_verification_distance r = None).
Proof.
  revert d k. induction ms as [|m ms IH]; intros d k.
  - simpl. intros [= <- _] Hr. left. split; [done|].
    intros m Hm. by inversion Hm.
  - rewrite sync_loop_cons.
    destruct (sync_one now map (d, k) m) as [[d1 k1]|] eqn:Hone; [|done].
    intros Hloop Hr.
    destruct (IH _ _ Hloop Hr) as [[Hin Hrest]|Hdef]; [|by right].
    destruct (sync_one_rows _ _ _ _ _ _ _ _ Hone Hin) as [[Hin0 Hm]|(_ & Hdef)];
      [|by right].
    left. split; [done|].
    intros m' [->|Hm']%elem_of_cons; [done | by apply Hrest].
Qed.

Lemma sync_loop_keeps now map ms d k d' n r :
  sync_loop now map ms (d, k) = Ok (d', n) ->
  r ∈ markers d ->
  (forall m, m ∈ ms -> has_geometry m = true -> same_key (uid m) r = false) ->
  r ∈ markers d'.
Proof.
  revert d k. induction ms as [|m ms IH]; intros d k.
  - simpl. by intros [= <- _].
  - rewrite sync_loop_cons.
    destruct (sync_one now map (d, k) m) as [[d1 k1]|] eqn:Hone; [|done].
    intros Hloop Hr Hall. apply (IH _ _ Hloop).
    + apply (sync_one_keeps _ _ _ _ _ _ _ _ Hone Hr).
      apply Hall. by left.
    + intros m' Hm'. apply Hall. by right.
Qed.

(** C1, as the code has it. The upsert names neither [is_verified] nor
    [verification_distance], and it replaces the stored row: after a sync
    every row whose uid was among the stored records has the declared
    defaults ([FALSE], [NULL]), whatever it held before. The rows of all
    other uids are kept as they were, and a row that does not have the
    defaults afterwards is such an untouched row. *)
Theorem resync_resets_verification_state now ms map d d' n :
  sync_markers now ms map d = Ok (d', n) ->
  (forall r, r ∈ markers d' ->
     (exists m, m ∈ ms /\ has_geometry m = true /\
                same_key (uid m) r = true) ->
     verification_state r = (false, None)) /\
  (forall r, r ∈ markers d ->
     (forall m, m ∈ ms -> has_geometry m = true ->
                same_key (uid m) r = false) ->
     r ∈ markers d') /\
  (forall r, r ∈ markers d' ->
     verification_state r <> (false, None) ->
     r ∈ markers d /\
     forall m, m ∈ ms -> has_geometry m = true ->
               same_key (uid m) r = false).
Proof.
  unfold sync_markers, verification_state. intros Hsync.
  split; [|split].
  - intros r Hr (m & Hm & Hg & Hkey).
    destruct (sync_loop_rows _ _ _ _ _ _ _ _ Hsync Hr) as [[_ Hno]|[-> ->]];
      [|done].
    rewrite (Hno m Hm Hg) in Hkey. done.
  - intros r Hr Hno. by apply (sync_loop_keeps _ _ _ _ _ _ _ _ Hsync).
  - intros r Hr Hne.
    destruct (sync_loop_rows _ _ _ _ _ _ _ _ Hsync Hr) as [H|[Hv Hd]];
      [done|].
    rewrite Hv, Hd in Hne. done.
Qed.

(** The database after [verified_db] receives the record of "m1" again. *)
Lemma resync_m1 :
  exists d',
    sync_markers (SyncSamples.clock 200)
      [SyncSamples.payload "m1" SyncSamples.here None] "woods"
      SyncSamples.verified_db = Ok (d', 1%nat) /\
    List.map (fun r => (col_uid r, col_synced_at r, verification_state r))
      (markers d')
    = [(Some "m1"%string, Some 200%Z, (false, None))] /\
    marker_images d' = marker_images SyncSamples.verified_db.
Proof. eexists. split; [reflexivity|]. split; reflexivity. Qed.

Lemma resync_resets_verification_state_witness :
  exists d',
    sync_markers (SyncSamples.clock 200)
      [SyncSamples.payload "m1" SyncSamples.here None] "woods"
      SyncSamples.verified_db = Ok (d', 1%nat) /\
    forall r, r ∈ markers d' ->
      (exists m, m ∈ [SyncSamples.payload "m1" SyncSamples.here None] /\
                 has_geometry m = true /\ same_key (uid m) r = true) ->
      verification_state r = (false, None).
Proof.
  eexists. split; [reflexivity|].
  eapply (resync_resets_verification_state (SyncSamples.clock 200)
            [SyncSamples.payload "m1" SyncSamples.here None] "woods"
            SyncSamples.verified_db).
  reflexivity.
Defined.

(** C1 as written fails: a row verified at distance 2 is back to the
    defaults once the same uid is synced again. *)
Lemma resync_loses_verification :
  List.map verification_state (markers SyncSamples.verified_db)
  = [(true, Some 2%R)] /\
  exists d',
    sync_markers (SyncSamples.clock 200)
      [SyncSamples.payload "m1" SyncSamples.here None] "woods"
      SyncSamples.verified_db = Ok (d', 1%nat) /\
    List.map col_uid (markers d') = [Some "m1"%string] /\
    List.map verification_state (markers d') = [(false, None)].
Proof.
  split; [reflexivity|]. eexists. split; [reflexivity|].
  split; reflexivity.
Qed.

(** *** Image rows *)

Lemma insert_images_spec u idx l d d' :
  insert_images (Some u) idx l d = Ok d' ->
  exists rows,
    marker_images d' = marker_images d ++ rows /\
    List.map image_content rows = expected_images u idx l /\
    Forall (fun r => mi_marker_uid r = u) rows /\
    length rows = length l.
Proof.
  revert idx d. induction l as [|i l IH]; intros idx d; simpl.
  - intros [= <-]. exists []. by rewrite app_nil_r.
  - unfold insert_image, not_null. monad.
    destruct (img i) as [url|] eqn:Hurl; [|done].
    intros H. destruct (IH _ _ H) as (rows & Himg & Hcont & Hall & Hlen).
    simpl in Himg. rewrite <- app_assoc in Himg.
    eexists. split; [exact Himg|]. simpl.
    split; [by rewrite Hcont|]. split; [by constructor | by rewrite Hlen].
Qed.

Lemma sync_images_spec m d d' :
  sync_images m d = Ok d' ->
  match nonempty_or_None (imgs m) with
  | None => d' = d
  | Some l =>
      exists u rows,
        uid m = Some u /\
        marker_images d'
        = delete_images (Some u) (marker_images d) ++ rows /\
        List.map image_content rows = expected_images u 0 l /\
        Forall (fun r => mi_marker_uid r = u) rows /\
        length rows = length l
  end.
Proof.
  unfold sync_images.
  destruct (nonempty_or_None (imgs m)) as [l|] eqn:Hl; [|by intros [= <-]].
  destruct (uid m) as [u|].
  - intros H. apply insert_images_spec in H as (rows & H1 & H2 & H3 & H4).
    by exists u, rows.
  - destruct l as [|i l].
    + unfold nonempty_or_None in Hl. by destruct (imgs m) as [[|]|].
    + simpl. unfold insert_image, not_null. monad. done.
Qed.

Lemma images_of_app u t1 t2 :
  images_of u (t1 ++ t2) = images_of u t1 ++ images_of u t2.
Proof. apply List.filter_app. Qed.

Lemma images_of_same u rows :
  Forall (fun r => mi_marker_uid r = u) rows -> images_of u rows = rows.
Proof.
  induction 1 as [|r rows Hr _ IH]; [reflexivity|].
  unfold images_of in *. simpl. rewrite Hr, String.eqb_refl. by rewrite IH.
Qed.

Lemma images_of_other u u' rows :
  u' <> u ->
  Forall (fun r => mi_marker_uid r = u) rows -> images_of u' rows = [].
Proof.
  intros Hne. induction 1 as [|r rows Hr _ IH]; [reflexivity|].
  unfold images_of in *. simpl. rewrite Hr.
  destruct (String.eqb_spec u u'); [congruence | exact IH].
Qed.

Lemma images_of_delete_same u t :
  images_of u (delete_images (Some u) t) = [].
Proof.
  unfold images_of. simpl. induction t as [|r t IH]; [reflexivity|].
  simpl. destruct (String.eqb (mi_marker_uid r) u) eqn:He; simpl;
    [exact IH | by rewrite He].
Qed.

Lemma images_of_delete_other u u' t :
  u' <> u -> images_of u' (delete_images (Some u) t) = images_of u' t.
Proof.
  intros Hne. unfold images_of. simpl. induction t as [|r t IH];
    [reflexivity|].
  simpl. destruct (String.eqb_spec (mi_marker_uid r) u) as [He|He]; simpl.
  - destruct (String.eqb_spec (mi_marker_uid r) u'); [congruence | exact IH].
  - destruct (String.eqb (mi_marker_uid r) u'); [by rewrite IH | exact IH].
Qed.

Lemma sync_markers_single now m map d :
  sync_markers now [m] map d = sync_one now map (d, 0%nat) m.
Proof.
  unfold sync_markers. rewrite sync_loop_cons.
  by destruct (sync_one now map (d, 0%nat) m).
Qed.

(** C6, as the code has it. The image rows of a marker are replaced only
    when the record carries a non-empty image list: then the rows of that
    uid are exactly the list, in order, and the rows of other markers are
    untouched. With an empty or absent list no image row is deleted. *)
Theorem images_replaced_when_listed now m map d d' n :
  sync_markers now [m] map d = Ok (d', n) ->
  has_geometry m = true ->
  match nonempty_or_None (imgs m) with
  | None => marker_images d' = marker_images d
  | Some l =>
      exists u,
        uid m = Some u /\
        List.map image_content (images_of u (marker_images d'))
        = expected_images u 0 l /\
        length (images_of u (marker_images d')) = length l /\
        forall u', u' <> u ->
          images_of u' (marker_images d') = images_of u' (marker_images d)
  end.
Proof.
  rewrite sync_markers_single. intros Hone Hg.
  destruct (sync_one_stored _ _ _ _ _ _ Hg Hone)
    as (g & row & _ & _ & _ & Himg & _).
  apply sync_images_spec in Himg. cbn [marker_images fst] in Himg.
  destruct (nonempty_or_None (imgs m)) as [l|]; [|by rewrite Himg].
  destruct Himg as (u & rows & Hu & Hrows & Hcont & Hall & Hlen).
  exists u. split; [done|]. rewrite Hrows.
  rewrite images_of_app, images_of_delete_same, (images_of_same _ _ Hall).
  cbn [app]. split; [done|]. split; [done|].
  intros u' Hne.
  rewrite images_of_app, (images_of_other _ _ _ Hne Hall), app_nil_r.
  by apply images_of_delete_other.
Qed.

Lemma images_replaced_when_listed_witness :
  exists d',
    sync_markers (SyncSamples.clock 200)
      [SyncSamples.payload "m1" SyncSamples.here
         (Some [SyncSamples.photo "b.png"; SyncSamples.photo "c.png"])]
      "woods" SyncSamples.verified_db = Ok (d', 1%nat) /\
    List.map image_content (images_of "m1" (marker_images d'))
    = [("m1"%string, "b.png"%string, None, None, 0%nat);
       ("m1"%string, "c.png"%string, None, None, 1%nat)].
Proof.
  eexists. split; [reflexivity|].
  destruct (images_replaced_when_listed (SyncSamples.clock 200)
              (SyncSamples.payload "m1" SyncSamples.here
                 (Some [SyncSamples.photo "b.png"; SyncSamples.photo "c.png"]))
              "woods" SyncSamples.verified_db _ 1%nat eq_refl eq_refl)
    as (u & Hu & Hcont & _).
  injection Hu as <-. exact Hcont.
Defined.

(** C6 as written fails: after a sync of "m1" with an empty image list
    its stored image row is still there. *)
Lemma empty_image_list_keeps_rows :
  exists d',
    sync_markers (SyncSamples.clock 200)
      [SyncSamples.payload "m1" SyncSamples.here (Some [])] "woods"
      SyncSamples.verified_db = Ok (d', 1%nat) /\
    images_of "m1" (marker_images SyncSamples.verified_db)
    = [SyncSamples.stored_image 1 "m1" "a.png"] /\
    images_of "m1" (marker_images d')
    = [SyncSamples.stored_image 1 "m1" "a.png"] /\
    List.map col_images (markers d') = [None].
Proof.
  eexists. split; [reflexivity|]. split; [reflexivity|].
  split; reflexivity.
Qed.

(** *** Syncing the same record twice *)

Lemma marker_values_fields t map m g row :
  marker_values t map m g = Ok row ->
  row_source_fields row = payload_source_fields map m g.
Proof.
  unfold marker_values, not_null, row_source_fields, payload_source_fields.
  monad.
  destruct (category m); [|done]. destruct (name m); [|done].
  destruct (x g); [|done]. destruct (y g); [|done].
  by intros [= <-].
Qed.

Lemma marker_values_later t1 t2 map m g row :
  marker_values t1 map m g = Ok row ->
  marker_values t2 map m g = Ok (set_synced_at t2 row).
Proof.
  unfold marker_values, not_null. monad.
  destruct (category m); [|done]. destruct (name m); [|done].
  destruct (x g); [|done]. destruct (y g); [|done].
  by intros [= <-].
Qed.

Lemma same_key_refl u row :
  col_uid row = Some u -> same_key (Some u) row = true.
Proof. unfold same_key. intros ->. apply String.eqb_refl. Qed.

Lemma filter_others_single u row :
  col_uid row = Some u ->
  List.filter (fun r => negb (same_key (Some u) r)) [row] = [].
Proof. intros H. cbn [List.filter]. by rewrite (same_key_refl u row H). Qed.

Lemma filter_same_single u row :
  col_uid row = Some u -> List.filter (same_key (Some u)) [row] = [row].
Proof. intros H. cbn [List.filter]. by rewrite (same_key_refl u row H). Qed.

Lemma filter_others_twice (u : option string) (t : list marker_row) :
  List.filter (fun r => negb (same_key u r))
    (List.filter (fun r => negb (same_key u r)) t)
  = List.filter (fun r => negb (same_key u r)) t.
Proof.
  induction t as [|r t IH]; [reflexivity|]. simpl.
  destruct (same_key u r) eqn:He; simpl; [exact IH|].
  by rewrite He, IH.
Qed.

Lemma filter_same_of_others (u : option string) (t : list marker_row) :
  List.filter (same_key u) (List.filter (fun r => negb (same_key u r)) t)
  = [].
Proof.
  induction t as [|r t IH]; [reflexivity|]. simpl.
  destruct (same_key u r) eqn:He; simpl; [exact IH|].
  by rewrite He, IH.
Qed.

Lemma delete_images_twice u t rows :
  Forall (fun r => mi_marker_uid r = u) rows ->
  delete_images (Some u) (delete_images (Some u) t ++ rows)
  = delete_images (Some u) t.
Proof.
  intros Hall. unfold delete_images. rewrite List.filter_app.
  assert (H1 : forall l : list image_row,
             List.filter (fun r => negb (String.eqb (mi_marker_uid r) u))
               (List.filter
                  (fun r => negb (String.eqb (mi_marker_uid r) u)) l)
             = List.filter
                 (fun r => negb (String.eqb (mi_marker_uid r) u)) l).
  { induction l as [|r l IH]; [reflexivity|]. simpl.
    destruct (String.eqb (mi_marker_uid r) u) eqn:He; simpl; [exact IH|].
    by rewrite He, IH. }
  assert (H2 : List.filter
                 (fun r => negb (String.eqb (mi_marker_uid r) u)) rows = []).
  { induction Hall as [|r rows Hr _ IH]; [reflexivity|]. simpl.
    by rewrite Hr, String.eqb_refl. }
  by rewrite H1, H2, app_nil_r.
Qed.

(** C4, as the code has it. For a record that passes the geometry guard
    and satisfies the table constraints, with a uid: each of two syncs
    stores it and returns 1; afterwards [markers] holds exactly one row
    of that uid, whose bound columns are the values of the record; the
    second sync changes nothing in [markers] but the [synced_at] of that
    row, which does not go back when the clock does not; and the image
    rows are the same up to their surrogate ids. *)
Theorem upsert_twice now1 now2 map d m u :
  has_geometry m = true -> insertable m = true -> uid m = Some u ->
  exists g row1 row2 d1 d2 rest,
    geometry m = Some g /\
    sync_markers now1 [m] map d = Ok (d1, 1%nat) /\
    sync_markers now2 [m] map d1 = Ok (d2, 1%nat) /\
    markers d1 = rest ++ [row1] /\
    markers d2 = rest ++ [row2] /\
    List.filter (same_key (Some u)) (markers d1) = [row1] /\
    List.filter (same_key (Some u)) (markers d2) = [row2] /\
    row_source_fields row2 = payload_source_fields map m g /\
    row2 = set_synced_at (now2 0%nat) row1 /\
    col_synced_at row1 = Some (now1 0%nat) /\
    col_synced_at row2 = Some (now2 0%nat) /\
    ((now1 0%nat <= now2 0%nat)%Z ->
     exists t1 t2, col_synced_at row1 = Some t1 /\
                   col_synced_at row2 = Some t2 /\ (t1 <= t2)%Z) /\
    List.map image_content (marker_images d2)
    = List.map image_content (marker_images d1).
Proof.
  intros Hg Hins Hu.
  destruct (sync_one_ok now1 map d 0%nat m Hg Hins) as [d1 Hone1].
  destruct (sync_one_ok now2 map d1 0%nat m Hg Hins) as [d2 Hone2].
  destruct (sync_one_stored _ _ _ _ _ _ Hg Hone1)
    as (g & row1 & Hgeo & Hrow1 & Hmk1 & Himg1 & _).
  destruct (sync_one_stored _ _ _ _ _ _ Hg Hone2)
    as (g' & row2 & Hgeo' & Hrow2 & Hmk2 & Himg2 & _).
  rewrite Hgeo in Hgeo'. injection Hgeo' as <-.
  cbn [fst] in Hmk1, Hmk2, Himg1, Himg2.
  assert (Hrow2' := marker_values_later _ (now2 0%nat) _ _ _ _ Hrow1).
  rewrite Hrow2 in Hrow2'. injection Hrow2' as Hrow2'.
  destruct (marker_values_columns _ _ _ _ _ Hrow1) as (Hu1 & Ht1 & _).
  destruct (marker_values_columns _ _ _ _ _ Hrow2) as (Hu2 & Ht2 & _).
  rewrite Hu in Hu1, Hu2.
  set (rest := List.filter (fun r => negb (same_key (Some u) r)) (markers d)).
  assert (Hd1 : markers d1 = rest ++ [row1]).
  { rewrite Hmk1. unfold insert_or_replace. by rewrite Hu1. }
  assert (Hd2 : markers d2 = rest ++ [row2]).
  { rewrite Hmk2, Hd1. unfold insert_or_replace. rewrite Hu2.
    rewrite List.filter_app. unfold rest at 1.
    by rewrite filter_others_twice, (filter_others_single u row1 Hu1),
      app_nil_r. }
  exists g, row1, row2, d1, d2, rest.
  split; [done|]. split; [by rewrite sync_markers_single|].
  split; [by rewrite sync_markers_single|].
  split; [done|]. split; [done|]. split.
  { rewrite Hd1, List.filter_app. unfold rest.
    by rewrite filter_same_of_others, (filter_same_single u row1 Hu1). }
  split.
  { rewrite Hd2, List.filter_app. unfold rest.
    by rewrite filter_same_of_others, (filter_same_single u row2 Hu2). }
  split; [by eapply marker_values_fields|].
  split; [done|]. split; [done|]. split; [done|]. split.
  { intros Hle. by exists (now1 0%nat), (now2 0%nat). }
  apply sync_images_spec in Himg1, Himg2. cbn [marker_images] in Himg1, Himg2.
  destruct (nonempty_or_None (imgs m)) as [l|].
  - destruct Himg1 as (u1 & rows1 & Hu1' & Hi1 & Hc1 & Hall1 & _).
    destruct Himg2 as (u2 & rows2 & Hu2' & Hi2 & Hc2 & Hall2 & _).
    rewrite Hu in Hu1', Hu2'. injection Hu1' as <-. injection Hu2' as <-.
    rewrite Hi2, Hi1, (delete_images_twice _ _ _ Hall1).
    by rewrite !List.map_app, Hc1, Hc2.
  - rewrite Himg2, Himg1. reflexivity.
Qed.

Lemma upsert_twice_witness :
  let m := SyncSamples.payload "m1" SyncSamples.here
             (Some [SyncSamples.photo "b.png"]) in
  has_geometry m = true /\ insertable m = true /\
  uid m = Some "m1"%string /\
  exists d1 d2,
    sync_markers (SyncSamples.clock 200) [m] "woods" SyncSamples.verified_db
    = Ok (d1, 1%nat) /\
    sync_markers (SyncSamples.clock 300) [m] "woods" d1 = Ok (d2, 1%nat) /\
    length (List.filter (same_key (Some "m1"%string)) (markers d2)) = 1%nat.
Proof.
  split; [reflexivity|]. split; [reflexivity|]. split; [reflexivity|].
  destruct (upsert_twice (SyncSamples.clock 200) (SyncSamples.clock 300)
              "woods" SyncSamples.verified_db
              (SyncSamples.payload "m1" SyncSamples.here
                 (Some [SyncSamples.photo "b.png"]))
              "m1" eq_refl eq_refl eq_refl)
    as (g & row1 & row2 & d1 & d2 & rest & _ & H1 & H2 & _ & _ & _ & Hf & _).
  exists d1, d2. split; [exact H1|]. split; [exact H2|].
  by rewrite Hf.
Defined.

(** C4 as written fails for a record without geometry: it is skipped
    both times and no row of its uid is stored. *)
Lemma skipped_record_has_no_row :
  let m := SyncSamples.payload "m1" None None in
  exists d1 d2,
    sync_markers (SyncSamples.clock 200) [m] "woods" SyncSamples.empty_db
    = Ok (d1, 0%nat) /\
    sync_markers (SyncSamples.clock 300) [m] "woods" d1 = Ok (d2, 0%nat) /\
    List.filter (same_key (Some "m1"%string)) (markers d2) = [].
Proof.
  eexists. eexists. split; [reflexivity|]. split; reflexivity.
Qed.

End SyncFacts.

(** ** Position verifier: further properties *)

Module VerifyExtra.
Import Verify VerifyFacts.
Local Open Scope R_scope.

(** The function that [compare_positions] maps over the considered
    entries; it depends on the secondary set only. *)
Lemma compare_positions_map v map tol cf :
  fst (compare_positions v map tol cf)
  = (match secondary v map with
     | [] => fun a => new_result a map (Some msg_no_web)
     | _ :: _ =>
         compare_one map tol (secondary v map)
           (web_lookup_of (secondary v map))
     end) <$> considered v map cf.
Proof.
  destruct (secondary v map) as [|z web] eqn:Hweb.
  - by apply compare_positions_empty.
  - rewrite <- Hweb. apply compare_positions_nonempty. by rewrite Hweb.
Qed.

Lemma compare_one_header map tol web lookup a :
  let r := compare_one map tol web lookup a in
  (marker_uid r, marker_name r, result_map_name r, api_x r, api_y r,
   screenshot_path r)
  = (uid a, name a, map, x a, y a, None).
Proof.
  unfold compare_one.
  destruct (lookup !! uid a); [reflexivity|].
  destruct (nearest_loop a web) as [[d|] [w|]]; try reflexivity.
  destruct (Rleb d (tol * 2)); reflexivity.
Qed.

(** The results of a call are one per considered primary entry, in the
    order of the entries, each carrying the uid, name and position of its
    entry and the map of the call; none has a screenshot. *)
Theorem results_follow_entries v map tol cf :
  (fun r => (marker_uid r, marker_name r, result_map_name r,
             api_x r, api_y r, screenshot_path r))
    <$> fst (compare_positions v map tol cf)
  = (fun a => (uid a, name a, map, x a, y a, None)) <$> considered v map cf.
Proof.
  rewrite compare_positions_map, <- list_fmap_compose.
  apply list_fmap_ext. intros _ a _. simpl.
  destruct (secondary v map); [reflexivity|].
  apply compare_one_header.
Qed.

Lemma filter_zip_fmap {A B : Type} (g : A -> B) (p : A -> bool) (l : list A) :
  snd <$> List.filter (fun q => p (fst q)) (zip l (g <$> l))
  = g <$> List.filter p l.
Proof.
  induction l as [|a l IH]; [reflexivity|].
  rewrite fmap_cons. cbn [zip_with List.filter fst].
  destruct (p a); [rewrite !fmap_cons; cbn [snd]; by rewrite IH | exact IH].
Qed.

(** A category filter selects primary entries only: the results of a
    filtered call are the results of the unfiltered call for the entries
    of that category, in order. An absent or empty filter selects every
    entry. *)
Theorem category_filter_selects_entries v map tol :
  let all := default [] (api_markers v !! map) in
  let unfiltered := fst (compare_positions v map tol None) in
  length unfiltered = length all /\
  fst (compare_positions v map tol (Some ""%string)) = unfiltered /\
  forall f, f <> ""%string ->
    considered v map (Some f)
    = List.filter (fun m => String.eqb (category m) f) all /\
    fst (compare_positions v map tol (Some f))
    = snd <$> List.filter (fun q => String.eqb (category (fst q)) f)
                (zip all unfiltered).
Proof.
  intros all unfiltered. subst unfiltered.
  split; [apply compare_positions_length|]. split; [reflexivity|].
  intros f Hf.
  assert (Hc : considered v map (Some f)
               = List.filter (fun m => String.eqb (category m) f) all).
  { unfold considered, apply_category_filter, truthy_str.
    destruct (String.eqb_spec f ""); [done | reflexivity]. }
  split; [exact Hc|].
  rewrite !compare_positions_map, Hc.
  change (considered v map None) with all.
  by rewrite (filter_zip_fmap _ (fun m => String.eqb (category m) f)).
Qed.

Lemma from_compare_invariants tol r :
  from_compare tol r ->
  (is_match r = true ->
     exists d, distance r = Some d /\ d <= tol /\ error r = None) /\
  (forall d, distance r = Some d -> 0 <= d /\ is_match r = Rleb d tol) /\
  (error r = None <-> is_Some (distance r)) /\
  (is_Some (web_x r) <-> is_Some (distance r)) /\
  (is_Some (web_y r) <-> is_Some (distance r)) /\
  (error r = None \/ error r = Some msg_no_web \/
   error r = Some msg_no_match \/ truthy_opt_str (error r) = true).
Proof.
  intros [(a & map & w & d & -> & Hd) | (a & map & msg & -> & Hmsg)]; simpl.
  - split.
    { intros Hm. exists d. split; [done|]. split; [by apply Rleb_true|done]. }
    split; [by intros d' [= <-]|].
    repeat split; eauto.
  - split; [done|]. split; [done|].
    split; [split; [done | by intros [? ?]]|].
    split; [split; by intros [? ?]|].
    split; [split; by intros [? ?]|].
    right; right; right. done.
Qed.

(** Every result of a call is consistent: a match has a recorded distance
    within the tolerance and no error; a recorded distance is not
    negative and decides the match; the error is set exactly when no
    distance was recorded; and the two secondary coordinates are recorded
    exactly when the distance is. *)
Theorem results_are_consistent v map tol cf :
  Forall (fun r =>
    (is_match r = true ->
       exists d, distance r = Some d /\ d <= tol /\ error r = None) /\
    (forall d, distance r = Some d -> 0 <= d /\ is_match r = Rleb d tol) /\
    (error r = None <-> is_Some (distance r)) /\
    (is_Some (web_x r) <-> is_Some (distance r)) /\
    (is_Some (web_y r) <-> is_Some (distance r)))
    (fst (compare_positions v map tol cf)).
Proof.
  apply Forall_forall. intros r Hr.
  destruct (from_compare_invariants tol r
              (compare_positions_from_compare v map tol cf r Hr))
    as (H1 & H2 & H3 & H4 & H5 & _).
  done.
Qed.

(** The identity lookup finds the last secondary entry of a uid, and
    nothing for the empty uid. *)
Theorem web_lookup_last_wins (web : list MarkerPosition) (u : string) :
  web_lookup_of web !! u
  = if decide (u = ""%string) then None
    else last (List.filter (fun m => String.eqb (uid m) u) web).
Proof.
  unfold web_lookup_of. induction web as [|z web IH] using rev_ind.
  - simpl. rewrite lookup_empty. by case_decide.
  - rewrite foldl_snoc, List.filter_app. cbn [List.filter].
    destruct (truthy_str (uid z)) eqn:Hz.
    + destruct (String.eqb_spec (uid z) u) as [He|He].
      * subst u. rewrite lookup_insert_eq, last_snoc.
        case_decide as Hu; [|done].
        unfold truthy_str in Hz. by rewrite Hu in Hz.
      * rewrite lookup_insert_ne by done. by rewrite app_nil_r.
    + rewrite IH. case_decide; [done|].
      destruct (String.eqb_spec (uid z) u) as [He|He]; [|by rewrite app_nil_r].
      unfold truthy_str in Hz. apply negb_false_iff in Hz.
      apply String.eqb_eq in Hz. congruence.
Qed.

Lemma compare_one_match_mono map tol tol' web a :
  tol <= tol' ->
  let r := compare_one map tol web (web_lookup_of web) a in
  let r' := compare_one map tol' web (web_lookup_of web) a in
  is_match r = true ->
  is_match r' = true /\ distance r' = distance r /\
  web_x r' = web_x r /\ web_y r' = web_y r.
Proof.
  intros Hle. unfold compare_one.
  destruct (web_lookup_of web !! uid a) as [w|]; simpl.
  - intros Hm%Rleb_true. repeat split. apply Rleb_true. lra.
  - destruct (nearest_loop_spec a web) as [[_ ->]|(l1&w&l2&_&->&_&_)];
      [done|].
    assert (Hd := euclid_nonneg a w).
    destruct (Rleb (euclid a w) (tol * 2)) eqn:H2; simpl; [|done].
    intros Hm%Rleb_true.
    assert (H2' : Rleb (euclid a w) (tol' * 2) = true)
      by (apply Rleb_true; lra).
    rewrite H2'. simpl. repeat split. apply Rleb_true. lra.
Qed.

Lemma count_if_mono {A : Type} (f g : A -> bool) (l : list A) :
  (forall a, f a = true -> g a = true) ->
  (count_if f l <= count_if g l)%nat.
Proof.
  intros H. induction l as [|a l IH]; [done|].
  rewrite !count_if_cons. specialize (H a).
  destruct (f a); [rewrite H by done|]; destruct (g a); simpl; lia.
Qed.

(** Widening the tolerance never loses a match: an entry matched at
    [tol] is matched at every [tol' >= tol], against the same secondary
    position and at the same distance, so the matched count does not
    decrease. *)
Theorem match_monotone_in_tolerance v map tol tol' cf :
  tol <= tol' ->
  (forall i r,
      fst (compare_positions v map tol cf) !! i = Some r ->
      is_match r = true ->
      exists r',
        fst (compare_positions v map tol' cf) !! i = Some r' /\
        is_match r' = true /\ distance r' = distance r /\
        web_x r' = web_x r /\ web_y r' = web_y r) /\
  (count_if is_match (fst (compare_positions v map tol cf))
   <= count_if is_match (fst (compare_positions v map tol' cf)))%nat.
Proof.
  intros Hle. rewrite !compare_positions_map.
  destruct (secondary v map) as [|z web] eqn:Hweb.
  - split.
    + intros i r Hr Hm. rewrite list_lookup_fmap in Hr.
      destruct (considered v map cf !! i); [|done].
      injection Hr as <-. done.
    + apply Nat.eq_le_incl. reflexivity.
  - split.
    + intros i r Hr Hm. rewrite list_lookup_fmap in Hr |- *.
      destruct (considered v map cf !! i) as [a|]; [|done].
      injection Hr as <-. eexists. split; [reflexivity|].
      by apply compare_one_match_mono.
    + unfold count_if.
      induction (considered v map cf) as [|a l IH]; [done|].
      rewrite !fmap_cons. cbn [List.filter].
      destruct (is_match (compare_one map tol (z :: web) _ a)) eqn:Hm.
      * destruct (compare_one_match_mono map tol tol' (z :: web) a Hle Hm)
          as (-> & _). simpl. lia.
      * destruct (is_match (compare_one map tol' (z :: web) _ a)); simpl; lia.
Qed.

Lemma match_monotone_in_tolerance_witness :
  let v := Samples.one_each (Samples.at_ "A" 0 0) (Samples.at_ "A" 3 4) in
  5 <= 6 /\
  (count_if is_match (fst (compare_positions v "woods" 5 None))
   <= count_if is_match (fst (compare_positions v "woods" 6 None)))%nat.
Proof.
  split; [lra|].
  apply (match_monotone_in_tolerance
           (Samples.one_each (Samples.at_ "A" 0 0) (Samples.at_ "A" 3 4))
           "woods" 5 6 None).
  lra.
Defined.

(** With a negative tolerance no entry is matched, not even one at the
    very position of its secondary entry. *)
Theorem negative_tolerance_matches_nothing v map tol cf :
  tol < 0 ->
  Forall (fun r => is_match r = false) (fst (compare_positions v map tol cf))
  /\ count_if is_match (fst (compare_positions v map tol cf)) = 0%nat.
Proof.
  intros Htol.
  assert (Hall : Forall (fun r => is_match r = false)
                   (fst (compare_positions v map tol cf))).
  { apply Forall_forall. intros r Hr.
    destruct (compare_positions_from_compare v map tol cf r Hr)
      as [(a & m & w & d & -> & Hd) | (a & m & msg & -> & _)]; simpl; [|done].
    apply Rleb_false. lra. }
  split; [exact Hall|].
  unfold count_if. induction Hall as [|r l Hr _ IH]; [done|].
  simpl. by rewrite Hr.
Qed.

Lemma negative_tolerance_matches_nothing_witness :
  let v := Samples.one_each (Samples.at_ "A" 0 0) (Samples.at_ "A" 0 0) in
  -1 < 0 /\
  count_if is_match (fst (compare_positions v "woods" (-1) None)) = 0%nat.
Proof.
  split; [lra|].
  apply (negative_tolerance_matches_nothing
           (Samples.one_each (Samples.at_ "A" 0 0) (Samples.at_ "A" 0 0))
           "woods" (-1) None).
  lra.
Defined.

(** A call appends its results to the accumulated list and changes
    nothing else; the list is never deduplicated, so the same call again
    appends the same results once more. *)
Theorem results_accumulate v map tol cf :
  let rs := fst (compare_positions v map tol cf) in
  let v' := snd (compare_positions v map tol cf) in
  api_markers v' = api_markers v /\
  web_markers v' = web_markers v /\
  results v' = results v ++ rs /\
  fst (compare_positions v' map tol cf) = rs /\
  results (snd (compare_positions v' map tol cf)) = results v ++ rs ++ rs /\
  length (results v') = (length (results v) + length (considered v map cf))%nat.
Proof.
  intros rs v'.
  assert (Ha : api_markers v' = api_markers v).
  { subst v'. unfold compare_positions.
    by destruct (default [] (web_markers v !! map)). }
  assert (Hw : web_markers v' = web_markers v).
  { subst v'. unfold compare_positions.
    by destruct (default [] (web_markers v !! map)). }
  assert (Hr : results v' = results v ++ rs)
    by apply compare_positions_results.
  assert (Hsame : fst (compare_positions v' map tol cf) = rs).
  { subst rs. rewrite !compare_positions_map.
    unfold secondary, considered. by rewrite Ha, Hw. }
  split; [done|]. split; [done|]. split; [done|]. split; [done|].
  split.
  - by rewrite compare_positions_results, Hsame, Hr, <- app_assoc.
  - rewrite Hr, length_app. subst rs.
    by rewrite compare_positions_length.
Qed.

End VerifyExtra.

(** ** Reports: further properties *)

Module ReportExtra.
Import Verify VerifyFacts ReportSpec.

Lemma count_if_snoc {A : Type} (f : A -> bool) (l : list A) (a : A) :
  count_if f (l ++ [a]) = (count_if f l + Nat.b2n (f a))%nat.
Proof.
  unfold count_if. rewrite List.filter_app, length_app. simpl.
  by destruct (f a).
Qed.

Lemma counters_of_snoc (l : list VerificationResult) (r : VerificationResult) :
  counters_of (l ++ [r])
  = let c := counters_of l in
    if is_match r then
      {| bm_total := S (bm_total c); bm_matched := S (bm_matched c);
         bm_discrepancies := bm_discrepancies c;
         bm_missing := bm_missing c |}
    else if truthy_opt_float (distance r) then
      {| bm_total := S (bm_total c); bm_matched := bm_matched c;
         bm_discrepancies := S (bm_discrepancies c);
         bm_missing := bm_missing c |}
    else
      {| bm_total := S (bm_total c); bm_matched := bm_matched c;
         bm_discrepancies := bm_discrepancies c;
         bm_missing := S (bm_missing c) |}.
Proof.
  unfold counters_of. rewrite !count_if_snoc, length_app. simpl.
  unfold is_discrepancy, is_unclassified.
  destruct (is_match r); simpl.
  - f_equal; lia.
  - destruct (truthy_opt_float (distance r)); simpl; f_equal; lia.
Qed.

Lemma by_map_lookup (rs : list VerificationResult) (k : string) :
  fst (group_results rs) !! k
  = match List.filter (on_map k) rs with
    | [] => None
    | l => Some (counters_of l)
    end.
Proof.
  unfold group_results. induction rs as [|r rs IH] using rev_ind.
  - simpl. apply lookup_empty.
  - rewrite foldl_snoc, List.filter_app. cbn [List.filter].
    set (st := foldl group_step (∅, []) rs) in *.
    assert (Hkey : default zero_counters (fst st !! result_map_name r)
                   = counters_of
                       (List.filter (on_map (result_map_name r)) rs)).
    { specialize (IH). clear IH.
      assert (IH' : fst st !! result_map_name r
                    = match List.filter (on_map (result_map_name r)) rs with
                      | [] => None
                      | l => Some (counters_of l)
                      end).
      { subst st. clear. induction rs as [|r' rs IH] using rev_ind.
        - simpl. apply lookup_empty.
        - rewrite foldl_snoc, List.filter_app. cbn [List.filter].
          set (st := foldl group_step (∅, []) rs) in *.
          unfold on_map at 2.
          destruct (String.eqb_spec (result_map_name r')
                      (result_map_name r)) as [He|He].
          + assert (Hd : default zero_counters
                           (fst st !! result_map_name r')
                         = counters_of
                             (List.filter (on_map (result_map_name r)) rs)).
            { rewrite He, IH.
              by destruct (List.filter (on_map (result_map_name r)) rs). }
            assert (Hs : fst (group_step st r') !! result_map_name r
                         = Some (counters_of
                                   (List.filter (on_map (result_map_name r))
                                      rs ++ [r']))).
            { rewrite counters_of_snoc. unfold group_step. rewrite Hd.
              cbn zeta. rewrite <- He.
              destruct (is_match r');
                [|destruct (truthy_opt_float (distance r'))];
                cbn [fst]; by rewrite lookup_insert_eq. }
            rewrite Hs.
            by destruct (List.filter (on_map (result_map_name r)) rs).
          + assert (Hs : fst (group_step st r') !! result_map_name r
                         = fst st !! result_map_name r).
            { unfold group_step.
              destruct (is_match r');
                [|destruct (truthy_opt_float (distance r'))];
                cbn [fst]; by rewrite lookup_insert_ne. }
            by rewrite Hs, IH, app_nil_r. }
      rewrite IH'.
      by destruct (List.filter (on_map (result_map_name r)) rs). }
    unfold on_map at 2.
    destruct (String.eqb_spec (result_map_name r) k) as [He|He].
    + subst k.
      assert (Hs : fst (group_step st r) !! result_map_name r
                   = Some (counters_of
                             (List.filter (on_map (result_map_name r)) rs
                              ++ [r]))).
      { rewrite counters_of_snoc. unfold group_step. rewrite Hkey.
        cbn zeta.
        destruct (is_match r); [|destruct (truthy_opt_float (distance r))];
          cbn [fst]; by rewrite lookup_insert_eq. }
      rewrite Hs. by destruct (List.filter (on_map (result_map_name r)) rs).
    + assert (Hs : fst (group_step st r) !! k = fst st !! k).
      { unfold group_step.
        destruct (is_match r); [|destruct (truthy_opt_float (distance r))];
          cbn [fst]; by rewrite lookup_insert_ne. }
      by rewrite Hs, IH, app_nil_r.
Qed.

Lemma counters_of_partition (l : list VerificationResult) :
  (bm_matched (counters_of l) + bm_discrepancies (counters_of l)
   + bm_missing (counters_of l) = bm_total (counters_of l))%nat.
Proof.
  unfold counters_of. simpl. apply count_if_partition.
  intros r _. unfold exactly_one, is_discrepancy, is_unclassified.
  destruct (is_match r); [done|].
  by destruct (truthy_opt_float (distance r)).
Qed.

(** The per-map breakdown of a report has an entry exactly for the maps
    that occur among the accumulated results; the entry counts the
    results of its map, and its three counters always add up to its
    total, whatever the results are. *)
Theorem by_map_counts_per_map (v : MarkerVerifier) (k : string) :
  let on_k := List.filter (on_map k) (results v) in
  (by_map (_generate_json_report v) !! k = None <-> on_k = []) /\
  (forall c, by_map (_generate_json_report v) !! k = Some c ->
     c = counters_of on_k /\
     (0 < bm_total c)%nat /\
     (bm_matched c + bm_discrepancies c + bm_missing c = bm_total c)%nat).
Proof.
  intros on_k. unfold _generate_json_report. cbn [by_map].
  rewrite by_map_lookup. fold on_k.
  destruct on_k as [|r l] eqn:Hon.
  - split; [done|]. intros c Hc. done.
  - split; [split; intros H; done|].
    intros c [= <-]. split; [done|].
    split; [simpl; lia | apply counters_of_partition].
Qed.

(** The output format does not change the figures: whichever report
    [generate_report] produces, a JSON report is the JSON report of the
    accumulated results, an HTML report has the same totals and per-map
    breakdown and the first 50 detail records of the JSON report, and a
    CSV report lists every accumulated result. HTML needs its template
    engine and CSV needs pandas; every other request yields JSON. *)
Theorem report_formats_agree (pandas_available jinja_available : bool)
    (format : string) (v : MarkerVerifier) :
  let json := _generate_json_report v in
  match generate_report pandas_available jinja_available format v with
  | JsonOut r =>
      r = json /\
      (format = "html"%string -> jinja_available = false) /\
      (format = "csv"%string -> pandas_available = false)
  | HtmlOut c =>
      format = "html"%string /\ jinja_available = true /\
      h_total c = total_markers json /\
      h_matched c = matched json /\
      h_discrepancies c = discrepancies json /\
      h_missing_count c = missing json /\
      h_by_map c = by_map json /\
      h_discrepancy_details c = take 50 (discrepancy_details json)
  | CsvOut rows =>
      format = "csv"%string /\ pandas_available = true /\ rows = results v
  end.
Proof.
  intros json. unfold generate_report.
  destruct (String.eqb_spec format "json") as [->|Hj]; [done|].
  destruct (String.eqb_spec format "html") as [->|Hh].
  - unfold _generate_html_report. destruct jinja_available; simpl; done.
  - destruct (String.eqb_spec format "csv") as [->|Hc]; simpl.
    + destruct pandas_available; simpl; done.
    + done.
Qed.

End ReportExtra.

(** ** Payload decoder: further properties *)

Module DecoderExtra.
Import Exn Decoder DecoderFacts.

Lemma string_ext (a b : string) :
  (forall i, String.get i a = String.get i b) -> a = b.
Proof.
  revert b. induction a as [|c a IH]; intros [|c' b] H.
  - reflexivity.
  - specialize (H 0). discriminate.
  - specialize (H 0). discriminate.
  - assert (H0 := H 0). simpl in H0. injection H0 as ->.
    f_equal. apply IH. intros i. apply (H (S i)).
Qed.

Lemma strip_noise_insert (p n s : string) :
  String.length p = 5 -> String.length n = 5 ->
  strip_noise (p +:+ n +:+ s) = p +:+ s.
Proof.
  intros Hp Hn. apply string_ext. intros i.
  rewrite get_strip_noise.
  destruct (decide (i < 5)) as [Hi|Hi].
  - rewrite !get_append, Hp. by repeat case_decide.
  - rewrite !get_append, Hp, Hn.
    repeat case_decide; try lia. f_equal. lia.
Qed.

Section decode_noise.
Variable bytes : Type.
Variable b64decode : string -> result bytes.
Variable decode_utf8 : bytes -> result string.
Variable unquote : string -> result string.

(** [decode] never looks at the characters at index 5 to 9: two inputs
    that agree at every other index decode to the same value. So five
    characters of any content inserted after the first five of a text
    are undone before the text is base64-decoded. *)
Theorem decode_ignores_noise (a b : string) :
  (forall i, i < 5 \/ 10 <= i -> String.get i a = String.get i b) ->
  strip_noise a = strip_noise b /\
  decode bytes b64decode decode_utf8 unquote a
  = decode bytes b64decode decode_utf8 unquote b /\
  (forall p n s,
      a = p +:+ n +:+ s -> String.length p = 5 -> String.length n = 5 ->
      strip_noise a = p +:+ s).
Proof.
  intros H.
  assert (Hs : strip_noise a = strip_noise b).
  { apply string_ext. intros i. rewrite !get_strip_noise.
    case_decide; apply H; lia. }
  split; [exact Hs|]. split.
  - unfold decode, decode_body. by rewrite Hs.
  - intros p n s -> Hp Hn. by apply strip_noise_insert.
Qed.

End decode_noise.

Lemma decode_ignores_noise_witness :
  (forall i, i < 5 \/ 10 <= i ->
             String.get i "aGVsbXXXXXG8=" = String.get i "aGVsbYYYYYG8=") /\
  decode string StoreSpec.toy_b64decode Ok Ok "aGVsbXXXXXG8="
  = decode string StoreSpec.toy_b64decode Ok Ok "aGVsbYYYYYG8=".
Proof.
  assert (H : forall i, i < 5 \/ 10 <= i ->
            String.get i "aGVsbXXXXXG8=" = String.get i "aGVsbYYYYYG8=").
  { intros i Hi. do 10 (destruct i as [|i]; [try reflexivity; lia|]).
    reflexivity. }
  split; [exact H|].
  apply (decode_ignores_noise string StoreSpec.toy_b64decode Ok Ok
           "aGVsbXXXXXG8=" "aGVsbYYYYYG8=" H).
Defined.

End DecoderExtra.

(** ** Marker sync: further properties *)

Module SyncExtra.
Import Exn Sync SyncSpec StoreSpec SyncFacts.

(** *** When the call returns *)







(** *** The primary key of [markers] *)

Lemma marker_keys_app t1 t2 :
  marker_keys (t1 ++ t2) = marker_keys t1 ++ marker_keys t2.
Proof. apply omap_app. Qed.

Lemma elem_of_marker_keys u t :
  u ∈ marker_keys t <-> exists r, r ∈ t /\ col_uid r = Some u.
Proof. unfold marker_keys. apply list_elem_of_omap. Qed.

Lemma marker_keys_filter_NoDup (f : marker_row -> bool) t :
  NoDup (marker_keys t) -> NoDup (marker_keys (List.filter f t)).
Proof.
  induction t as [|r t IH]; [done|].
  unfold marker_keys in *. simpl.
  destruct (col_uid r) as [u|] eqn:Hu.
  - intros [Hnin Hnd]%NoDup_cons. destruct (f r); [|by apply IH].
    simpl. rewrite Hu. apply NoDup_cons. split; [|by apply IH].
    intros Hin. apply Hnin.
    apply list_elem_of_omap in Hin as (r' & Hr' & Hu').
    apply list_elem_of_omap. exists r'. split; [|done].
    apply list_elem_of_In in Hr'. apply List.filter_In in Hr' as [Hr' _].
    by apply list_elem_of_In.
  - intros Hnd. destruct (f r); [|by apply IH].
    simpl. rewrite Hu. by apply IH.
Qed.

Lemma insert_or_replace_keys row t :
  NoDup (marker_keys t) -> NoDup (marker_keys (insert_or_replace row t)).
Proof.
  intros Hnd. unfold insert_or_replace. rewrite marker_keys_app.
  apply NoDup_app. split; [by apply marker_keys_filter_NoDup|].
  split.
  - intros u Hin Hnew. unfold marker_keys in Hnew. simpl in Hnew.
    destruct (col_uid row) as [u'|] eqn:Hu; [|by inversion Hnew].
    apply list_elem_of_singleton in Hnew as ->.
    apply elem_of_marker_keys in Hin as (r & Hr & Hur).
    apply list_elem_of_In in Hr. apply List.filter_In in Hr as [_ Hkey].
    unfold same_key in Hkey. rewrite Hur in Hkey.
    by rewrite String.eqb_refl in Hkey.
  - unfold marker_keys. simpl. destruct (col_uid row); simpl;
      [apply NoDup_singleton | apply NoDup_nil_2].
Qed.

Lemma insert_or_replace_keeps_keys row t u :
  u ∈ marker_keys t -> u ∈ marker_keys (insert_or_replace row t).
Proof.
  intros (r & Hr & Hu)%elem_of_marker_keys.
  apply elem_of_marker_keys.
  destruct (same_key (col_uid row) r) eqn:Hkey.
  - exists row. split; [apply elem_of_insert_or_replace; by right|].
    unfold same_key in Hkey. rewrite Hu in Hkey.
    destruct (col_uid row) as [u'|]; [|done].
    apply String.eqb_eq in Hkey. by subst.
  - exists r. split; [|done]. apply elem_of_insert_or_replace. by left.
Qed.

Lemma insert_or_replace_new_keys row t u :
  u ∈ marker_keys (insert_or_replace row t) ->
  u ∈ marker_keys t \/ col_uid row = Some u.
Proof.
  intros (r & Hr & Hu)%elem_of_marker_keys.
  apply elem_of_insert_or_replace in Hr as [[Hr _]| ->]; [|by right].
  left. apply elem_of_marker_keys. by exists r.
Qed.

(** A sync keeps the primary key of [markers] sound: uids that were
    distinct stay distinct; no uid disappears, also when it is missing
    from the list synced (stale markers stay); and every uid that is new
    is the uid of a record of the list that passed the geometry guard. *)
Theorem marker_keys_stay_unique now ms map d d' n :
  sync_markers now ms map d = Ok (d', n) ->
  (NoDup (marker_keys (markers d)) -> NoDup (marker_keys (markers d'))) /\
  (forall u, u ∈ marker_keys (markers d) -> u ∈ marker_keys (markers d')) /\
  (forall u, u ∈ marker_keys (markers d') ->
     u ∈ marker_keys (markers d) \/
     exists m, m ∈ ms /\ has_geometry m = true /\ uid m = Some u).
Proof.
  unfold sync_markers. generalize 0%nat as k. revert d.
  induction ms as [|m ms IH]; intros d k.
  - simpl. intros [= <- _]. split; [done|]. split; [done|]. by left.
  - rewrite sync_loop_cons.
    destruct (sync_one now map (d, k) m) as [[d1 k1]|] eqn:Hone; [|done].
    intros Hloop. destruct (IH _ _ Hloop) as (IH1 & IH2 & IH3).
    destruct (has_geometry m) eqn:Hg.
    + destruct (sync_one_stored _ _ _ _ _ _ Hg Hone)
        as (g & row & _ & Hrow & Hmk & _ & _).
      cbn [fst] in Hmk.
      destruct (marker_values_columns _ _ _ _ _ Hrow) as (Hu & _).
      split; [|split].
      * intros Hnd. apply IH1. rewrite Hmk.
        by apply insert_or_replace_keys.
      * intros u Hin. apply IH2. rewrite Hmk.
        by apply insert_or_replace_keeps_keys.
      * intros u Hin. destruct (IH3 u Hin) as [Hin1|(m' & Hm' & Hg' & Hu')].
        -- rewrite Hmk in Hin1.
           destruct (insert_or_replace_new_keys _ _ _ Hin1) as [?|Hnew];
             [by left|].
           right. exists m. split; [by left|]. split; [done|].
           by rewrite <- Hu.
        -- right. exists m'. split; [by right | done].
    + rewrite sync_one_skip in Hone by done. injection Hone as <- <-.
      split; [done|]. split; [done|].
      intros u Hin. destruct (IH3 u Hin) as [?|(m' & Hm' & Hg' & Hu')];
        [by left|].
      right. exists m'. split; [by right | done].
Qed.

Lemma marker_keys_stay_unique_witness :
  exists d',
    sync_markers (SyncSamples.clock 200)
      [SyncSamples.payload "m1" SyncSamples.here None;
       SyncSamples.payload "m2" SyncSamples.here None;
       SyncSamples.payload "m1" SyncSamples.here None] "woods"
      SyncSamples.verified_db = Ok (d', 3%nat) /\
    NoDup (marker_keys (markers d')).
Proof.
  eexists. split; [reflexivity|].
  eapply (marker_keys_stay_unique (SyncSamples.clock 200)
            [SyncSamples.payload "m1" SyncSamples.here None;
             SyncSamples.payload "m2" SyncSamples.here None;
             SyncSamples.payload "m1" SyncSamples.here None] "woods"
            SyncSamples.verified_db).
  - reflexivity.
  - apply NoDup_singleton.
Defined.

(** *** The ids of [marker_images] *)

Lemma images_advance_refl d : images_advance d d.
Proof. split; [done|]. split; [done|]. intros r Hr. by left. Qed.

Lemma images_advance_trans d1 d2 d3 :
  images_advance d1 d2 -> images_advance d2 d3 -> images_advance d1 d3.
Proof.
  intros (Ha1 & Ha2 & Ha3) (Hb1 & Hb2 & Hb3).
  split; [auto|]. split; [lia|].
  intros r Hr. destruct (Hb3 r Hr) as [Hin|Hlt].
  - apply Ha3, Hin.
  - right. lia.
Qed.

Lemma id_le_list_max (t : list image_row) (r : image_row) :
  r ∈ t -> mi_id r <= list_max (image_ids t).
Proof.
  intros Hr.
  assert (H := proj1 (list_max_le (image_ids t) (list_max (image_ids t)))
                 (le_n _)).
  rewrite List.Forall_forall in H. apply H.
  unfold image_ids. apply List.in_map. by apply list_elem_of_In.
Qed.

Lemma insert_image_advance u idx i d d' :
  insert_image u idx i d = Ok d' -> images_advance d d'.
Proof.
  unfold insert_image, not_null. monad.
  destruct u as [mu|]; [|done]. destruct (img i) as [url|]; [|done].
  intros [= <-]. unfold images_advance, next_image_id. simpl.
  split; [|split; [lia|]].
  - intros Hnd. unfold image_ids. rewrite List.map_app. simpl.
    apply NoDup_app. split; [done|]. split; [|apply NoDup_singleton].
    intros k Hk Hnew. apply list_elem_of_singleton in Hnew. subst k.
    apply list_elem_of_In, List.in_map_iff in Hk as (r & Hid & Hr).
    apply list_elem_of_In, id_le_list_max in Hr.
    unfold image_ids in Hr. lia.
  - intros r [Hr| ->%list_elem_of_singleton]%elem_of_app; [by left|].
    right. simpl. lia.
Qed.

Lemma insert_images_advance u idx l d d' :
  insert_images u idx l d = Ok d' -> images_advance d d'.
Proof.
  revert idx d. induction l as [|i l IH]; intros idx d; simpl.
  - intros [= <-]. apply images_advance_refl.
  - monad. destruct (insert_image u idx i d) as [d1|] eqn:H1; [|done].
    intros H. eapply images_advance_trans.
    + by eapply insert_image_advance.
    + by eapply IH.
Qed.

Lemma delete_images_advance u d :
  images_advance d
    {| markers := markers d;
       marker_images := delete_images u (marker_images d);
       marker_images_seq := marker_images_seq d |}.
Proof.
  unfold images_advance. simpl. split; [|split; [done|]].
  - destruct u as [a|]; [|done]. simpl. unfold image_ids.
    induction (marker_images d) as [|r t IH]; [done|]. simpl.
    intros [Hnin Hnd]%NoDup_cons.
    destruct (negb (String.eqb (mi_marker_uid r) a)); [|by apply IH].
    simpl. apply NoDup_cons. split; [|by apply IH].
    intros Hin. apply Hnin.
    apply list_elem_of_In, List.in_map_iff in Hin as (r' & Hid & Hr').
    apply List.filter_In in Hr' as [Hr' _].
    apply list_elem_of_In, List.in_map_iff. by exists r'.
  - intros r Hr. left. destruct u as [a|]; [|done]. simpl in Hr.
    apply list_elem_of_In, List.filter_In in Hr as [Hr _].
    by apply list_elem_of_In.
Qed.

Lemma sync_images_advance m d d' :
  sync_images m d = Ok d' -> images_advance d d'.
Proof.
  unfold sync_images. destruct (nonempty_or_None (imgs m)) as [l|].
  - intros H. eapply images_advance_trans.
    + apply (delete_images_advance (uid m)).
    + by eapply insert_images_advance.
  - intros [= <-]. apply images_advance_refl.
Qed.

Lemma sync_one_advance now map d k m d1 k1 :
  sync_one now map (d, k) m = Ok (d1, k1) -> images_advance d d1.
Proof.
  intros Hone. destruct (has_geometry m) eqn:Hg.
  - destruct (sync_one_stored _ _ _ _ _ _ Hg Hone)
      as (g & row & _ & _ & _ & Himg & _).
    cbn [fst] in Himg. apply sync_images_advance in Himg.
    exact Himg.
  - rewrite sync_one_skip in Hone by done. injection Hone as <- <-.
    apply images_advance_refl.
Qed.

(** A sync never reuses an image id: ids that were distinct stay
    distinct, the [AUTOINCREMENT] sequence does not go back, and every
    image row written by the call has an id above the sequence value the
    call started from. *)
Theorem image_ids_stay_fresh now ms map d d' n :
  sync_markers now ms map d = Ok (d', n) ->
  (NoDup (image_ids (marker_images d)) ->
   NoDup (image_ids (marker_images d'))) /\
  marker_images_seq d <= marker_images_seq d' /\
  (forall r, r ∈ marker_images d' ->
             r ∈ marker_images d \/ marker_images_seq d < mi_id r).
Proof.
  unfold sync_markers. generalize 0%nat as k. revert d.
  induction ms as [|m ms IH]; intros d k.
  - simpl. intros [= <- _]. apply images_advance_refl.
  - rewrite sync_loop_cons.
    destruct (sync_one now map (d, k) m) as [[d1 k1]|] eqn:Hone; [|done].
    intros Hloop. apply (images_advance_trans d d1 d').
    + by eapply sync_one_advance.
    + by eapply IH.
Qed.

Lemma image_ids_stay_fresh_witness :
  exists d',
    sync_markers (SyncSamples.clock 200)
      [SyncSamples.payload "m1" SyncSamples.here
         (Some [SyncSamples.photo "b.png"; SyncSamples.photo "c.png"])]
      "woods" SyncSamples.verified_db = Ok (d', 1%nat) /\
    image_ids (marker_images d') = [2; 3] /\
    marker_images_seq SyncSamples.verified_db <= marker_images_seq d'.
Proof.
  eexists. split; [reflexivity|]. split; [reflexivity|].
  eapply (image_ids_stay_fresh (SyncSamples.clock 200)
            [SyncSamples.payload "m1" SyncSamples.here
               (Some [SyncSamples.photo "b.png"; SyncSamples.photo "c.png"])]
            "woods" SyncSamples.verified_db).
  reflexivity.
Defined.

End SyncExtra.

(** ** Quest sync *)

Module QuestFacts.
Import Exn Quests QuestSpec.

Ltac monad := unfold mbind, mret, result_bind, result_ret, bind in *.

Lemma quest_values_insertable now q :
  quest_insertable q = true <-> exists row, quest_values now q = Ok row.
Proof.
  unfold quest_insertable, quest_values, Sync.not_null. monad.
  destruct (bsgId q); simpl; [|split; [done | by intros [? ?]]].
  destruct (name q); simpl; [|split; [done | by intros [? ?]]].
  split; [by eexists | done].
Qed.

Lemma quest_values_columns now q row :
  quest_values now q = Ok row ->
  q_uid row = uid q /\ bsgId q = Some (q_bsg_id row) /\
  name q = Some (q_name row) /\ q_name_ko row = None /\
  q_synced_at row = Some now.
Proof.
  unfold quest_values, Sync.not_null. monad.
  destruct (bsgId q); [|done]. destruct (name q); [|done].
  by intros [= <-].
Qed.

Lemma sync_quests_loop_cons now q qs st :
  sync_quests_loop now (q :: qs) st
  = match quest_values (now (snd st)) q with
    | Ok row =>
        sync_quests_loop now qs (insert_or_replace row (fst st), S (snd st))
    | Raise e => Raise e
    end.
Proof.
  simpl. unfold sync_quest. monad.
  by destruct (quest_values (now (snd st)) q).
Qed.

Lemma sync_quests_loop_ok now qs t k :
  forallb quest_insertable qs = true ->
  exists t', sync_quests_loop now qs (t, k) = Ok (t', (k + length qs)%nat).
Proof.
  revert t k. induction qs as [|q qs IH]; intros t k.
  - exists t. simpl. do 2 f_equal. lia.
  - simpl forallb. intros [Hq Hqs]%andb_prop.
    rewrite sync_quests_loop_cons.
    apply (quest_values_insertable (now k)) in Hq as [row Hrow].
    cbn [fst snd]. rewrite Hrow.
    destruct (IH (insert_or_replace row t) (S k) Hqs) as [t' ->].
    exists t'. do 2 f_equal. simpl. lia.
Qed.

Lemma sync_quests_loop_inv now qs t k t' n :
  sync_quests_loop now qs (t, k) = Ok (t', n) ->
  forallb quest_insertable qs = true /\ n = (k + length qs)%nat.
Proof.
  revert t k. induction qs as [|q qs IH]; intros t k.
  - simpl. intros [= <- <-]. split; [done | lia].
  - rewrite sync_quests_loop_cons. cbn [fst snd].
    destruct (quest_values (now k) q) as [row|] eqn:Hrow; [|done].
    intros H. destruct (IH _ _ H) as [Hqs ->].
    split; [|simpl; lia]. simpl. rewrite Hqs, andb_true_r.
    apply (quest_values_insertable (now k)). by exists row.
Qed.

(** [sync_quests] skips no record: it returns exactly when every quest
    has a [bsgId] and a [name], and the count is then the length of the
    list; otherwise it raises and nothing is stored. Whether it returns
    does not depend on the table. *)
Theorem sync_quests_counts_all now qs t :
  ((exists t' n, sync_quests now qs t = Ok (t', n)) <->
   forallb quest_insertable qs = true) /\
  (forall t' n, sync_quests now qs t = Ok (t', n) -> n = length qs) /\
  sync_quests now [] t = Ok (t, 0%nat).
Proof.
  unfold sync_quests. split; [split|split].
  - intros (t' & n & H). by apply sync_quests_loop_inv in H as [? _].
  - intros H. destruct (sync_quests_loop_ok now qs t 0%nat H) as [t' Ht'].
    by eexists _, _.
  - intros t' n H. by apply sync_quests_loop_inv in H as [_ ->].
  - reflexivity.
Qed.

Lemma elem_of_quest_insert row t r :
  r ∈ insert_or_replace row t <->
  (r ∈ t /\ conflicts row r = false) \/ r = row.
Proof.
  unfold insert_or_replace.
  rewrite elem_of_app, list_elem_of_singleton, !list_elem_of_In,
    List.filter_In, negb_true_iff.
  reflexivity.
Qed.

Lemma elem_of_quest_uids u t :
  u ∈ quest_uids t <-> exists r, r ∈ t /\ q_uid r = Some u.
Proof. unfold quest_uids. apply list_elem_of_omap. Qed.

Lemma quest_uids_filter_NoDup (f : quest_row -> bool) t :
  NoDup (quest_uids t) -> NoDup (quest_uids (List.filter f t)).
Proof.
  induction t as [|r t IH]; [done|].
  unfold quest_uids in *. simpl.
  destruct (q_uid r) as [u|] eqn:Hu.
  - intros [Hnin Hnd]%NoDup_cons. destruct (f r); [|by apply IH].
    simpl. rewrite Hu. apply NoDup_cons. split; [|by apply IH].
    intros Hin. apply Hnin.
    apply list_elem_of_omap in Hin as (r' & Hr' & Hu').
    apply list_elem_of_omap. exists r'. split; [|done].
    apply list_elem_of_In in Hr'. apply List.filter_In in Hr' as [Hr' _].
    by apply list_elem_of_In.
  - intros Hnd. destruct (f r); [|by apply IH].
    simpl. rewrite Hu. by apply IH.
Qed.

Lemma quest_bsg_ids_filter_NoDup (f : quest_row -> bool) t :
  NoDup (quest_bsg_ids t) -> NoDup (quest_bsg_ids (List.filter f t)).
Proof.
  induction t as [|r t IH]; [done|].
  unfold quest_bsg_ids in *. simpl.
  intros [Hnin Hnd]%NoDup_cons. destruct (f r); [|by apply IH].
  simpl. apply NoDup_cons. split; [|by apply IH].
  intros Hin. apply Hnin.
  apply list_elem_of_In, List.in_map_iff in Hin as (r' & Hb & Hr').
  apply List.filter_In in Hr' as [Hr' _].
  apply list_elem_of_In, List.in_map_iff. by exists r'.
Qed.

Lemma quest_insert_keys row t :
  (NoDup (quest_uids t) -> NoDup (quest_uids (insert_or_replace row t))) /\
  (NoDup (quest_bsg_ids t) ->
   NoDup (quest_bsg_ids (insert_or_replace row t))).
Proof.
  unfold insert_or_replace. split; intros Hnd.
  - unfold quest_uids. rewrite omap_app. apply NoDup_app.
    split; [by apply quest_uids_filter_NoDup|]. split.
    + intros u Hin Hnew. simpl in Hnew.
      destruct (q_uid row) as [u'|] eqn:Hu; [|by inversion Hnew].
      apply list_elem_of_singleton in Hnew as ->.
      apply list_elem_of_omap in Hin as (r & Hr & Hur).
      apply list_elem_of_In, List.filter_In in Hr as [_ Hc].
      unfold conflicts, same_uid in Hc. rewrite Hu, Hur in Hc.
      by rewrite String.eqb_refl in Hc.
    + simpl. destruct (q_uid row); [apply NoDup_singleton | apply NoDup_nil_2].
  - unfold quest_bsg_ids. rewrite List.map_app. apply NoDup_app.
    split; [by apply quest_bsg_ids_filter_NoDup|]. split.
    + intros b Hin Hnew. simpl in Hnew.
      apply list_elem_of_singleton in Hnew as ->.
      apply list_elem_of_In, List.in_map_iff in Hin as (r & Hb & Hr).
      apply List.filter_In in Hr as [_ Hc].
      unfold conflicts in Hc. rewrite Hb, String.eqb_refl, orb_true_r in Hc.
      done.
    + apply NoDup_singleton.
Qed.

Lemma sync_quests_loop_keys now qs t k t' n :
  sync_quests_loop now qs (t, k) = Ok (t', n) ->
  (NoDup (quest_uids t) -> NoDup (quest_uids t')) /\
  (NoDup (quest_bsg_ids t) -> NoDup (quest_bsg_ids t')).
Proof.
  revert t k. induction qs as [|q qs IH]; intros t k.
  - simpl. by intros [= <- _].
  - rewrite sync_quests_loop_cons. cbn [fst snd].
    destruct (quest_values (now k) q) as [row|]; [|done].
    intros H. destruct (IH _ _ H) as [IH1 IH2].
    destruct (quest_insert_keys row t) as [H1 H2]. auto.
Qed.

(** Rows of a uid that no record of the list carries are never written:
    those present afterwards were there before. *)
Lemma sync_quests_loop_foreign now qs t k t' n u r :
  sync_quests_loop now qs (t, k) = Ok (t', n) ->
  (forall q, q ∈ qs -> uid q <> Some u) ->
  r ∈ t' -> q_uid r = Some u -> r ∈ t.
Proof.
  revert t k. induction qs as [|q qs IH]; intros t k.
  - simpl. by intros [= <- _].
  - rewrite sync_quests_loop_cons. cbn [fst snd].
    destruct (quest_values (now k) q) as [row|] eqn:Hrow; [|done].
    intros H Hno Hr Hu.
    assert (Hr1 := IH _ _ H (fun q' Hq' => Hno q' ltac:(by right)) Hr Hu).
    apply elem_of_quest_insert in Hr1 as [[Hin _]| ->]; [done|].
    destruct (quest_values_columns _ _ _ Hrow) as (Huid & _).
    exfalso. apply (Hno q ltac:(by left)). by rewrite <- Huid.
Qed.

Lemma sync_quests_loop_name_ko now qs t k t' n r :
  sync_quests_loop now qs (t, k) = Ok (t', n) ->
  r ∈ t' -> r ∈ t \/ q_name_ko r = None.
Proof.
  revert t k. induction qs as [|q qs IH]; intros t k.
  - simpl. intros [= <- _]. by left.
  - rewrite sync_quests_loop_cons. cbn [fst snd].
    destruct (quest_values (now k) q) as [row|] eqn:Hrow; [|done].
    intros H Hr. destruct (IH _ _ H Hr) as [Hr1|?]; [|by right].
    apply elem_of_quest_insert in Hr1 as [[? _]| ->]; [by left|].
    right. by destruct (quest_values_columns _ _ _ Hrow) as (_&_&_&?&_).
Qed.

Lemma same_uid_same_row (t : list quest_row) (r1 r2 : quest_row) (u : string) :
  NoDup (quest_uids t) -> r1 ∈ t -> r2 ∈ t ->
  q_uid r1 = Some u -> q_uid r2 = Some u -> r1 = r2.
Proof.
  unfold quest_uids. induction t as [|r t IH]; [by inversion 2|].
  simpl. intros Hnd H1 H2 Hu1 Hu2.
  apply elem_of_cons in H1 as [->|H1]; apply elem_of_cons in H2 as [->|H2].
  - reflexivity.
  - rewrite Hu1 in Hnd. apply NoDup_cons in Hnd as [Hnin _].
    exfalso. apply Hnin. apply list_elem_of_omap. by exists r2.
  - rewrite Hu2 in Hnd. apply NoDup_cons in Hnd as [Hnin _].
    exfalso. apply Hnin. apply list_elem_of_omap. by exists r1.
  - apply IH; try done. destruct (q_uid r); [|done].
    by apply NoDup_cons in Hnd as [_ ?].
Qed.

(** A quest sync keeps both keys of [quests] sound, and it does so by
    deleting: a stored quest whose [bsg_id] arrives under another uid is
    removed, so its uid is gone from the table although no record of the
    list carried it. Every row written has no Korean name. *)
Theorem quest_sync_displaces now qs t t' n :
  sync_quests now qs t = Ok (t', n) ->
  (NoDup (quest_uids t) -> NoDup (quest_uids t')) /\
  (NoDup (quest_bsg_ids t) -> NoDup (quest_bsg_ids t')) /\
  (forall r u,
      NoDup (quest_uids t) -> r ∈ t -> q_uid r = Some u ->
      (forall q, q ∈ qs -> uid q <> Some u) ->
      (exists q, q ∈ qs /\ bsgId q = Some (q_bsg_id r)) ->
      u ∉ quest_uids t') /\
  (forall r, r ∈ t' -> r ∈ t \/ q_name_ko r = None).
Proof.
  unfold sync_quests. intros Hsync.
  destruct (sync_quests_loop_keys _ _ _ _ _ _ Hsync) as [Hk1 Hk2].
  split; [exact Hk1|]. split; [exact Hk2|].
  split; [|intros r; by apply (sync_quests_loop_name_ko _ _ _ _ _ _ _ Hsync)].
  intros r u Hnd Hr Hu Hno Hex.
  revert Hsync Hnd Hr Hno Hex. clear Hk1 Hk2. generalize 0%nat as k.
  revert t. induction qs as [|q qs IH]; intros t k Hsync Hnd Hr Hno Hex.
  - destruct Hex as (q & Hq & _). by inversion Hq.
  - rewrite sync_quests_loop_cons in Hsync. cbn [fst snd] in Hsync.
    destruct (quest_values (now k) q) as [row|] eqn:Hrow; [|done].
    destruct (quest_values_columns _ _ _ Hrow) as (Huid & Hbsg & _).
    assert (Hno' : forall q', q' ∈ qs -> uid q' <> Some u)
      by (intros q' Hq'; apply Hno; by right).
    assert (Hrow_u : q_uid row <> Some u)
      by (rewrite Huid; apply Hno; by left).
    destruct (conflicts row r) eqn:Hc.
    + intros (r' & Hr' & Hu')%elem_of_quest_uids.
      assert (Hr1 := sync_quests_loop_foreign _ _ _ _ _ _ _ _
                       Hsync Hno' Hr' Hu').
      apply elem_of_quest_insert in Hr1 as [[Hr0 Hc']| ->]; [|congruence].
      assert (r' = r) by (by eapply same_uid_same_row). subst r'.
      congruence.
    + destruct Hex as (q0 & [->|Hq0]%elem_of_cons & Hb0).
      * unfold conflicts in Hc. rewrite Hbsg in Hb0. injection Hb0 as Hb0.
        rewrite Hb0, String.eqb_refl, orb_true_r in Hc. done.
      * apply (IH _ _ Hsync); [|by apply elem_of_quest_insert; left
                               |done|by exists q0].
        by apply quest_insert_keys.
Qed.

Lemma quest_sync_displaces_witness :
  let t := [sample_quest_row "q1" "b1" (Some "ko"%string);
            sample_quest_row "q2" "b2" None] in
  exists t',
    sync_quests (SyncSamples.clock 200) [sample_quest "q1" "b2"] t
    = Ok (t', 1%nat) /\
    NoDup (quest_uids t) /\
    ("q2"%string ∉ quest_uids t') /\
    length t' = 1%nat.
Proof.
  intros t.
  assert (Hnd : NoDup (quest_uids t)).
  { subst t. unfold quest_uids. simpl. apply NoDup_cons. split.
    - intros Hin. apply list_elem_of_singleton in Hin. discriminate.
    - apply NoDup_singleton. }
  eexists. split; [reflexivity|]. split; [exact Hnd|]. split; [|reflexivity].
  eapply (quest_sync_displaces (SyncSamples.clock 200)
            [sample_quest "q1" "b2"] t _ 1%nat eq_refl).
  - exact Hnd.
  - right. left.
  - reflexivity.
  - intros q Hq. apply list_elem_of_singleton in Hq. subst q. discriminate.
  - exists (sample_quest "q1" "b2"). split; [by left | reflexivity].
Defined.

End QuestFacts.

(** ** Full sync *)

Module FullSyncFacts.
Import Exn FullSync QuestSpec.

Ltac monad := unfold mbind, mret, result_bind, result_ret, bind in *.



Section service_facts.
Variable bytes : Type.
Variable b64decode : string -> result bytes.
Variable decode_utf8 : bytes -> result string.
Variable unquote : string -> result string.
Variable get_markers : string -> result (option string).
Variable get_quests : result (option string).
Variable loads_markers : string -> result (list Sync.marker).
Variable loads_quests : string -> result (list Quests.quest).
Variable now_markers : string -> nat -> Z.
Variable now_quests : nat -> Z.
Variable now_metadata : nat -> Z.
Variable isoformat_now : string.

Abbreviation fetch_markers' :=
  (fetch_markers bytes b64decode decode_utf8 unquote get_markers
     loads_markers).
Abbreviation fetch_quests' :=
  (fetch_quests bytes b64decode decode_utf8 unquote get_quests loads_quests).
Abbreviation map_step' :=
  (map_step bytes b64decode decode_utf8 unquote get_markers loads_markers
     now_markers).
Abbreviation quests_step' :=
  (quests_step bytes b64decode decode_utf8 unquote get_quests loads_quests
     now_quests).
Abbreviation full_sync' :=
  (full_sync bytes b64decode decode_utf8 unquote get_markers get_quests
     loads_markers loads_quests now_markers now_quests now_metadata
     isoformat_now).





(** A response without payload, with an empty payload, or with a payload
    that does not decode is an empty list of records, not an error: the
    map stores nothing and adds nothing to the total. *)
Theorem empty_payload_syncs_nothing (map_name : string)
    (field : option string) (s : store) (total : nat) :
  get_markers map_name = Ok field ->
  match field with
  | None => True
  | Some encoded =>
      encoded = ""%string \/
      Decoder.decode bytes b64decode decode_utf8 unquote encoded = None \/
      Decoder.decode bytes b64decode decode_utf8 unquote encoded
      = Some ""%string
  end ->
  fetch_markers' map_name = Ok [] /\
  map_step' (s, total) map_name = (s, total).
Proof.
  intros Hget Hfield.
  assert (Hf : fetch_markers' map_name = Ok []).
  { unfold fetch_markers. rewrite Hget. monad. unfold decode_payload.
    destruct field as [encoded|]; [|done].
    destruct (String.eqb_spec encoded "") as [He|He]; [done|].
    destruct Hfield as [Hd|[Hd|Hd]]; [done | by rewrite Hd | by rewrite Hd]. }
  split; [exact Hf|].
  unfold map_step, sync_map. rewrite Hf. monad. simpl.
  destruct s as [[ms imgs seq] qs md]. simpl. f_equal. lia.
Qed.

End service_facts.

Lemma empty_payload_syncs_nothing_witness :
  map_step string StoreSpec.toy_b64decode
    (fun _ => Raise UnicodeDecodeError) Ok
    (fun _ => Ok (Some "abcde"%string)) (fun _ => Raise ValueError)
    (fun _ => SyncSamples.clock 7) (empty_store, 3%nat) "woods"
  = (empty_store, 3%nat).
Proof.
  apply (empty_payload_syncs_nothing string StoreSpec.toy_b64decode
           (fun _ => Raise UnicodeDecodeError) Ok
           (fun _ => Ok (Some "abcde"%string)) (fun _ => Raise ValueError)
           (fun _ => SyncSamples.clock 7) "woods" (Some "abcde"%string)
           empty_store 3%nat eq_refl).
  right. left. reflexivity.
Defined.

End FullSyncFacts.

(** ** The verifier's fetch and run *)

Module VerifyRunFacts.
Import Exn Verify VerifyFacts VerifyRun.
Local Open Scope R_scope.

Ltac monad := unfold mbind, mret, result_bind, result_ret, bind in *.







Section run_facts.
Variable bytes : Type.
Variable b64decode : string -> result bytes.
Variable decode_utf8 : bytes -> result string.
Variable unquote : string -> result string.
Variable get_markers : string -> result (option string).
Variable loads_markers : string -> result (list Sync.marker).
Variable PLAYWRIGHT_AVAILABLE : bool.
Variable read_page : string -> result (list MarkerPosition).

Abbreviation verify_map' :=
  (verify_map bytes b64decode decode_utf8 unquote get_markers loads_markers
     PLAYWRIGHT_AVAILABLE read_page).
Abbreviation verify_maps' :=
  (verify_maps bytes b64decode decode_utf8 unquote get_markers loads_markers
     PLAYWRIGHT_AVAILABLE read_page).
Abbreviation main_maps' :=
  (main_maps bytes b64decode decode_utf8 unquote get_markers loads_markers
     PLAYWRIGHT_AVAILABLE read_page).

Lemma verify_maps_app tol cf l1 l2 v :
  verify_maps' tol cf (l1 ++ l2) v
  = match verify_maps' tol cf l1 v with
    | Ok v1 => verify_maps' tol cf l2 v1
    | Raise e => Raise e
    end.
Proof.
  revert v. induction l1 as [|m l1 IH]; intros v; [reflexivity|].
  simpl. monad. destruct (verify_map' tol cf v m); [apply IH | reflexivity].
Qed.

(** The verifier's run has no per-map guard: when the request for a map
    fails, the run ends with that exception, the maps after it are not
    verified, and no report is written. *)
Theorem run_stops_at_failed_fetch tol cf l1 m l2 v e :
  get_markers m = Raise e ->
  verify_maps' tol cf (l1 ++ m :: l2) v
  = match verify_maps' tol cf l1 v with
    | Ok _ => Raise e
    | Raise e' => Raise e'
    end /\
  forall pandas jinja format,
    main_maps bytes b64decode decode_utf8 unquote get_markers loads_markers
      PLAYWRIGHT_AVAILABLE read_page pandas jinja (m :: l2) tol cf format
    = inl (Propagated e).
Proof.
  intros Hget.
  assert (Hone : forall v', verify_map' tol cf v' m = Raise e).
  { intros v'. unfold verify_map, fetch_api_markers. rewrite Hget.
    reflexivity. }
  split.
  - rewrite verify_maps_app.
    destruct (verify_maps' tol cf l1 v) as [v1|e']; [|reflexivity].
    simpl. monad. by rewrite Hone.
  - intros pandas jinja format. unfold main_maps. simpl. monad.
    by rewrite Hone.
Qed.


End run_facts.

Lemma run_stops_at_failed_fetch_witness :
  main_maps string StoreSpec.toy_b64decode Ok Ok
    (fun _ => Raise ValueError) (fun _ => Ok []) false (fun _ => Ok [])
    false false ["woods"%string] 5 None "json"
  = inl (Propagated ValueError).
Proof.
  apply (run_stops_at_failed_fetch string StoreSpec.toy_b64decode Ok Ok
           (fun _ => Raise ValueError) (fun _ => Ok []) false
           (fun _ => Ok []) 5 None [] "woods"%string []
           {| api_markers := ∅; web_markers := ∅; results := [] |}
           ValueError eq_refl).
Defined.


End VerifyRunFacts.

(** ** Saving results *)

Module SaveFacts.
Import Verify SaveResults.

Lemma bound_values_names verified_at r :
  fst <$> bound_values verified_at r = named_columns.
Proof. reflexivity. Qed.

Lemma find_missing_none (t : table) (named : list (string * value)) :
  forallb (has_column t) (fst <$> named) = true ->
  List.find (fun cv => negb (has_column t (fst cv))) named = None.
Proof.
  induction named as [|cv named IH]; [reflexivity|].
  rewrite fmap_cons. simpl. intros [Hc Hrest]%andb_prop.
  rewrite Hc. simpl. by apply IH.
Qed.

Lemma insert_returns verified_at r t :
  forallb (has_column t) named_columns = true ->
  insert (bound_values verified_at r) t
  = Returned {| t_columns := t_columns t;
                t_rows := t_rows t ++ [stored_row (fun _ => verified_at)
                                         (t_seq t) 0 r];
                t_seq := S (t_seq t) |}.
Proof.
  intros Hall. unfold insert.
  rewrite find_missing_none by (by rewrite bound_values_names).
  unfold stored_row. by rewrite Nat.add_0_r.
Qed.

Lemma insert_results_returns verified_at i rs t :
  forallb (has_column t) named_columns = true ->
  insert_results verified_at i rs t
  = Returned {| t_columns := t_columns t;
                t_rows := t_rows t
                          ++ imap (fun j r =>
                                     stored_row (fun k => verified_at (i + k))
                                       (t_seq t) j r) rs;
                t_seq := t_seq t + length rs |}.
Proof.
  revert i t. induction rs as [|r rs IH]; intros i t Hall.
  - simpl. destruct t as [c rows q]. simpl.
    by rewrite app_nil_r, Nat.add_0_r.
  - cbn [insert_results]. rewrite (insert_returns _ _ _ Hall).
    rewrite IH by exact Hall. cbn [t_columns t_rows t_seq length imap].
    f_equal. f_equal; [|lia].
    rewrite <- app_assoc. f_equal. cbn [app]. f_equal.
    + unfold stored_row. by rewrite !Nat.add_0_r.
    + apply imap_ext. intros j r' _. unfold stored_row. cbn [compose].
      replace (S (t_seq t) + j) with (t_seq t + S j) by lia.
      by replace (S i + j) with (i + S j) by lia.
Qed.

(** [save_to_sqlite] only appends. On a database without the table, and
    on any table that has the twelve columns named by the insert, it
    returns; the rows stored before are kept as they are, one row per
    accumulated result follows them in order, with consecutive new ids;
    nothing is matched against earlier rows, so saving the same results
    again stores them a second time. *)
Theorem save_appends_every_result verified_at v file :
  let t0 := create_if_not_exists verifier_columns file in
  forallb (has_column (create_if_not_exists verifier_columns None))
    named_columns = true /\
  (forallb (has_column t0) named_columns = true ->
   exists t1 t2,
     save_to_sqlite verified_at v file = Returned t1 /\
     t_columns t1 = t_columns t0 /\
     t_rows t1
     = t_rows t0 ++ imap (stored_row verified_at (t_seq t0)) (results v) /\
     t_seq t1 = t_seq t0 + length (results v) /\
     save_to_sqlite verified_at v (Some t1) = Returned t2 /\
     t_rows t2
     = t_rows t1 ++ imap (stored_row verified_at (t_seq t1)) (results v)).
Proof.
  intros t0. split; [reflexivity|]. intros Hall.
  unfold save_to_sqlite. fold t0.
  rewrite (insert_results_returns verified_at 0 (results v) t0 Hall).
  eexists _, _. split; [reflexivity|]. cbn [t_columns t_rows t_seq].
  split; [reflexivity|]. split; [reflexivity|]. split; [reflexivity|].
  cbn [create_if_not_exists].
  rewrite insert_results_returns by exact Hall.
  split; reflexivity.
Qed.

Lemma save_appends_every_result_witness :
  let v := snd (compare_positions
                  (Samples.one_each (Samples.at_ "A" 0 0)
                     (Samples.at_ "A" 3 4)) "woods" 1 None) in
  forallb (has_column (create_if_not_exists verifier_columns None))
    named_columns = true /\
  exists t1,
    save_to_sqlite (fun _ => "2025-12-11T10:00:00"%string) v None
    = Returned t1 /\
    length (t_rows t1) = 1.
Proof.
  split; [reflexivity|].
  destruct (save_appends_every_result
              (fun _ => "2025-12-11T10:00:00"%string)
              (snd (compare_positions
                      (Samples.one_each (Samples.at_ "A" 0 0)
                         (Samples.at_ "A" 3 4)) "woods" 1 None))
              None) as [_ H].
  destruct (H eq_refl) as (t1 & t2 & H1 & _ & Hrows & _).
  exists t1. split; [exact H1|]. rewrite Hrows.
  rewrite VerifyFacts.compare_positions_results. simpl.
  rewrite length_imap, VerifyFacts.compare_positions_length. reflexivity.
Defined.

Lemma insert_raises_marker_name verified_at r t :
  t_columns t = sync_script_columns ->
  insert (bound_values verified_at r) t = OperationalError "marker_name".
Proof.
  intros Hc. unfold insert, bound_values, has_column. rewrite Hc.
  reflexivity.
Qed.

(** The two scripts disagree on the table: the one that the sync script
    creates in the same database file has no [marker_name], [map_name]
    or [error] column. On it [save_to_sqlite] raises at the first result
    and stores nothing; it returns only when there is no result to
    save. *)
Theorem save_raises_on_sync_script_table verified_at v t :
  t_columns t = sync_script_columns ->
  t_columns (init_database_table None) = sync_script_columns /\
  init_database_table (Some t) = t /\
  save_to_sqlite verified_at v (Some t)
  = match results v with
    | [] => Returned t
    | _ :: _ => OperationalError "marker_name"
    end.
Proof.
  intros Hc. split; [reflexivity|]. split; [reflexivity|].
  unfold save_to_sqlite. cbn [create_if_not_exists].
  destruct (results v) as [|r rs]; [reflexivity|].
  cbn [insert_results]. by rewrite insert_raises_marker_name.
Qed.

Lemma save_raises_on_sync_script_table_witness :
  let v := snd (compare_positions
                  (Samples.one_each (Samples.at_ "A" 0 0)
                     (Samples.at_ "A" 3 4)) "woods" 1 None) in
  t_columns (init_database_table None) = sync_script_columns /\
  save_to_sqlite (fun _ => "2025-12-11T10:00:00"%string) v
    (Some (init_database_table None))
  = OperationalError "marker_name".
Proof.
  split; [reflexivity|].
  destruct (save_raises_on_sync_script_table
              (fun _ => "2025-12-11T10:00:00"%string)
              (snd (compare_positions
                      (Samples.one_each (Samples.at_ "A" 0 0)
                         (Samples.at_ "A" 3 4)) "woods" 1 None))
              (init_database_table None) eq_refl) as (_ & _ & H).
  rewrite H. rewrite VerifyFacts.compare_positions_results.
  rewrite VerifyFacts.compare_positions_nonempty by discriminate.
  reflexivity.
Defined.

End SaveFacts.

(** ** Verifying one marker *)

Module VerifySingleFacts.
Import Exn Verify VerifySingle VerifySingleSpec.

Ltac monad := unfold mbind, mret, result_bind, result_ret, bind in *.

Section single_facts.
Variable bytes : Type.
Variable b64decode : string -> result bytes.
Variable decode_utf8 : bytes -> result string.
Variable unquote : string -> result string.
Variable get_markers : string -> result (option string).
Variable loads_markers : string -> result (list Sync.marker).
Variable PLAYWRIGHT_AVAILABLE : bool.
Variable open_page : result unit.
Variable find_element : string -> string -> result bool.
Variable save_screenshot : string -> result string.
Variable str_of_exn : exn -> string.

Abbreviation fetch_if_missing' :=
  (fetch_if_missing bytes b64decode decode_utf8 unquote get_markers
     loads_markers).
Abbreviation find_marker' :=
  (find_marker bytes b64decode decode_utf8 unquote get_markers
     loads_markers).

Lemma fetch_if_missing_frame map v v1 :
  fetch_if_missing' map v = Ok v1 -> same_but [map] v v1.
Proof.
  unfold fetch_if_missing, VerifyRun.fetch_api_markers, same_but.
  destruct (api_markers v !! map); [by intros [= <-]|].
  monad. destruct (get_markers map) as [[enc|]|]; try done;
    [|by intros [= <-]].
  destruct (String.eqb enc ""); [by intros [= <-]|].
  destruct (Decoder.decode _ _ _ _ enc) as [js|]; [|by intros [= <-]].
  destruct (String.eqb js ""); [by intros [= <-]|].
  destruct (loads_markers js) as [data|]; [|done].
  intros [= <-]. simpl. split; [done|]. split; [done|].
  intros k Hk. apply lookup_insert_ne. intros ->. apply Hk. by left.
Qed.

Lemma find_marker_frame marker_uid maps v o v' :
  find_marker' marker_uid maps v = Ok (o, v') -> same_but maps v v'.
Proof.
  revert v. induction maps as [|map maps IH]; intros v.
  - simpl. by intros [= _ <-].
  - simpl. monad.
    destruct (fetch_if_missing' map v) as [v1|] eqn:Hf; [|done].
    destruct (fetch_if_missing_frame _ _ _ Hf) as (Hr1 & Hw1 & Ha1).
    assert (Hstep : same_but (map :: maps) v v1).
    { split; [done|]. split; [done|]. intros k Hk. apply Ha1.
      intros Hin. apply Hk. apply list_elem_of_singleton in Hin. subst.
      by left. }
    destruct (List.find _ _) as [m|].
    + by intros [= _ <-].
    + intros H. destruct (IH _ H) as (Hr & Hw & Ha).
      split; [congruence|]. split; [congruence|].
      intros k Hk. rewrite Ha by (intros ?; apply Hk; by right).
      by apply Hstep.
Qed.

Lemma find_marker_first marker_uid maps v m map v' :
  NoDup maps ->
  find_marker' marker_uid maps v = Ok (Some (m, map), v') ->
  exists l1 l2,
    maps = l1 ++ map :: l2 /\
    List.find (has_uid marker_uid) (default [] (api_markers v' !! map))
    = Some m /\
    forall k, k ∈ l1 ->
      List.find (has_uid marker_uid) (default [] (api_markers v' !! k))
      = None.
Proof.
  revert v. induction maps as [|map0 maps IH]; intros v Hnd; [done|].
  apply NoDup_cons in Hnd as [Hnin Hnd].
  simpl. monad.
  destruct (fetch_if_missing' map0 v) as [v1|] eqn:Hf; [|done].
  destruct (List.find _ (default [] (api_markers v1 !! map0))) as [m0|] eqn:Hfind.
  - intros [= <- <- <-]. exists [], maps. split; [done|].
    split; [exact Hfind|]. intros k Hk. by inversion Hk.
  - intros H. destruct (IH _ Hnd H) as (l1 & l2 & -> & Hm & Hl1).
    exists (map0 :: l1), l2. split; [done|]. split; [exact Hm|].
    intros k [->|Hk]%elem_of_cons; [|by apply Hl1].
    destruct (find_marker_frame _ _ _ _ _ H) as (_ & _ & Ha).
    rewrite (Ha map0 Hnin). exact Hfind.
Qed.

(** Verifying a single marker looks the uid up map by map in the order
    of the supported maps and stops at the first map whose stored
    positions hold it; the result carries the name and position of the
    first position of that uid on that map. It never carries a secondary
    position, a distance or a match: the page is only searched for the
    element. Its error is unset exactly when the element was found and
    the screenshot, if one was asked for, was saved. Without playwright
    there is no result. *)
Theorem single_marker_is_looked_up_not_compared marker_uid take_screenshot
    v r v' :
  verify_single_marker bytes b64decode decode_utf8 unquote get_markers
    loads_markers PLAYWRIGHT_AVAILABLE open_page find_element
    save_screenshot str_of_exn marker_uid take_screenshot v
  = Ok (Some r, v') ->
  PLAYWRIGHT_AVAILABLE = true /\
  Verify.marker_uid r = marker_uid /\
  web_x r = None /\ web_y r = None /\ distance r = None /\
  is_match r = false /\
  (take_screenshot = false -> screenshot_path r = None) /\
  results v' = results v /\ web_markers v' = web_markers v /\
  (exists l1 l2 m,
      SUPPORTED_MAPS = l1 ++ result_map_name r :: l2 /\
      List.find (has_uid marker_uid)
        (default [] (api_markers v' !! result_map_name r)) = Some m /\
      marker_name r = name m /\ api_x r = x m /\ api_y r = y m /\
      forall k, k ∈ l1 ->
        List.find (has_uid marker_uid) (default [] (api_markers v' !! k))
        = None) /\
  (error r = None <->
   find_element (result_map_name r) marker_uid = Ok true /\
   (take_screenshot = true ->
    exists path, save_screenshot marker_uid = Ok path)).
Proof.
  unfold verify_single_marker.
  destruct PLAYWRIGHT_AVAILABLE; [|done]. cbn [negb]. monad.
  destruct (find_marker' marker_uid SUPPORTED_MAPS v) as [[o v1]|] eqn:Hfm;
    [|done].
  cbn [fst snd]. destruct o as [[m map]|]; [|done].
  destruct open_page; [|done]. intros [= <- <-].
  split; [done|].
  assert (Hnd : NoDup SUPPORTED_MAPS)
    by (apply (bool_decide_unpack _); by vm_compute).
  destruct (find_marker_first _ _ _ _ _ _ Hnd Hfm) as (l1 & l2 & Hmaps & Hm & Hl1).
  destruct (find_marker_frame _ _ _ _ _ Hfm) as (Hr & Hw & _).
  unfold inspect_page.
  destruct (find_element map marker_uid) as [found|e] eqn:Hfe;
    [destruct take_screenshot;
       [destruct (save_screenshot marker_uid) as [path|e] eqn:Hss|]|];
    cbn [Verify.marker_uid web_x web_y distance is_match screenshot_path
         error result_map_name marker_name api_x api_y];
    rewrite ?Hfe.
  - repeat split; try done.
    + by exists l1, l2, m.
    + destruct found; [done | discriminate].
    + by eexists.
    + intros [[= ->] _]. done.
  - repeat split; try done.
    + by exists l1, l2, m.
    + intros [_ [? ?]]; [done|]. done.
  - repeat split; try done.
    + by exists l1, l2, m.
    + destruct found; [done | discriminate].
    + intros [[= ->] _]. done.
  - repeat split; try done.
    + by exists l1, l2, m.
    + by intros [? _].
Qed.

End single_facts.

Lemma single_marker_is_looked_up_not_compared_witness :
  let v := {| api_markers := {[ "factory"%string := [Samples.at_ "A" 1 2] ]};
              web_markers := ∅; results := [] |} in
  exists r,
    verify_single_marker string StoreSpec.toy_b64decode Ok Ok
      (fun _ => Ok None) (fun _ => Ok []) true (Ok tt)
      (fun _ _ => Ok true) (fun _ => Ok ""%string) (fun _ => ""%string)
      "A" false v = Ok (Some r, v) /\
    result_map_name r = "factory"%string /\ is_match r = false /\
    error r = None.
Proof.
  intros v. eexists. split; [reflexivity|].
  split; [reflexivity|].
  match goal with |- is_match ?r = _ /\ _ =>
    destruct (single_marker_is_looked_up_not_compared string
                StoreSpec.toy_b64decode Ok Ok
                (fun _ => Ok None) (fun _ => Ok []) true (Ok tt)
                (fun _ _ => Ok true) (fun _ => Ok ""%string)
                (fun _ => ""%string) "A" false v r v eq_refl)
      as (_ & _ & _ & _ & _ & Hm & _ & _ & _ & _ & He)
  end.
  split; [exact Hm|]. apply He. split; [reflexivity|]. discriminate.
Defined.

End VerifySingleFacts.

(** ** Statistics *)

Module StatsFacts.
Import Exn FullSync Stats StatsSpec.

Ltac monad := unfold mbind, mret, result_bind, result_ret, bind in *.

Lemma sum_counts_insert (d : gmap string nat) (k : string) (n : nat) :
  (sum_counts (<[k := n]> d) + default 0 (d !! k) = n + sum_counts d)%nat.
Proof.
  unfold sum_counts.
  assert (Hcomm : forall (j1 j2 : string) (z1 z2 y : nat),
             (z1 + (z2 + y) = z2 + (z1 + y))%nat) by (intros; lia).
  destruct (d !! k) as [n0|] eqn:Hk; cbn [default].
  - rewrite <- (insert_delete_id d k n0 Hk) at 2.
    rewrite <- (insert_delete_eq d).
    rewrite !map_fold_insert_L by
      (try apply lookup_delete_eq; intros; apply Hcomm; done).
    unfold Datatypes.id. lia.
  - rewrite map_fold_insert_L by (try done; intros; apply Hcomm; done).
    lia.
Qed.

Lemma group_count_snoc {A : Type} (key : A -> string) (rows : list A)
    (r : A) :
  group_count key (rows ++ [r]) = count_row key (group_count key rows) r.
Proof. unfold group_count. by rewrite foldl_snoc. Qed.

Lemma sum_counts_group {A : Type} (key : A -> string) (rows : list A) :
  sum_counts (group_count key rows) = length rows.
Proof.
  induction rows as [|r rows IH] using rev_ind.
  - unfold group_count, sum_counts. simpl. apply map_fold_empty.
  - rewrite group_count_snoc, length_app. unfold count_row.
    pose proof (sum_counts_insert (group_count key rows) (key r)
                  (S (default 0%nat (group_count key rows !! key r)))).
    simpl. lia.
Qed.

Lemma group_count_lookup {A : Type} (key : A -> string) (rows : list A)
    (k : string) :
  group_count key rows !! k
  = match length (List.filter (keyed key k) rows) with
    | O => None
    | S n => Some (S n)
    end.
Proof.
  induction rows as [|r rows IH] using rev_ind.
  - unfold group_count. simpl. apply lookup_empty.
  - rewrite group_count_snoc, List.filter_app, length_app.
    cbn [List.filter]. unfold count_row, keyed at 2.
    destruct (String.eqb_spec (key r) k) as [->|Hne].
    + rewrite lookup_insert_eq, IH. cbn [length]. rewrite Nat.add_1_r.
      by destruct (length (List.filter (keyed key k) rows)).
    + rewrite lookup_insert_ne by done. rewrite IH. cbn [length].
      by rewrite Nat.add_0_r.
Qed.

Lemma length_filter_le {A : Type} (f : A -> bool) (l : list A) :
  (length (List.filter f l) <= length l)%nat.
Proof.
  induction l as [|a l IH]; simpl; [lia|].
  destruct (f a); simpl; lia.
Qed.

Lemma length_filter_filter {A : Type} (f g : A -> bool) (l : list A) :
  (length (List.filter f (List.filter g l)) <= length (List.filter f l))%nat.
Proof.
  induction l as [|a l IH]; simpl; [lia|].
  destruct (g a), (f a) eqn:Hf; simpl; rewrite ?Hf; simpl; lia.
Qed.

(** The statistics are consistent with each other on every database:
    the per-map counts and the per-category counts each add up to the
    marker total, a map has an entry exactly when a row carries it and
    the entry is the number of these rows, and the verified markers and
    the kappa quests are at most the totals. *)
Theorem stats_add_up (s : store) :
  let st := get_stats s in
  sum_counts (markers_by_map st) = total_markers st /\
  sum_counts (markers_by_category st) = total_markers st /\
  (forall k,
      markers_by_map st !! k
      = match length (List.filter (keyed Sync.col_map k)
                        (Sync.markers (tables s))) with
        | O => None
        | S n => Some (S n)
        end) /\
  (verified_markers st <= total_markers st)%nat /\
  (kappa_quests st <= total_quests st)%nat.
Proof.
  intros st. subst st. unfold get_stats.
  cbn [markers_by_map markers_by_category total_markers verified_markers
       kappa_quests total_quests].
  split; [apply sum_counts_group|].
  split; [apply sum_counts_group|].
  split; [intros k; apply group_count_lookup|].
  split; apply length_filter_le.
Qed.

(** *** What a sync does to the statistics *)

Abbreviation verified t := (length (List.filter Sync.col_is_verified t)).

Lemma insert_or_replace_stats row t :
  Sync.col_is_verified row = false ->
  (verified (Sync.insert_or_replace row t) <= verified t)%nat /\
  (length (Sync.insert_or_replace row t) <= S (length t))%nat.
Proof.
  intros Hrow. unfold Sync.insert_or_replace.
  rewrite List.filter_app, !length_app. cbn [List.filter].
  rewrite Hrow. cbn [length]. split.
  - rewrite Nat.add_0_r. apply length_filter_filter.
  - pose proof (length_filter_le
                  (fun r => negb (Sync.same_key (Sync.col_uid row) r)) t).
    lia.
Qed.

Lemma marker_values_unverified now map m g row :
  Sync.marker_values now map m g = Ok row ->
  Sync.col_is_verified row = false.
Proof.
  unfold Sync.marker_values, Sync.not_null. monad.
  destruct (Sync.category m); [|done]. destruct (Sync.name m); [|done].
  destruct (Sync.x g); [|done]. destruct (Sync.y g); [|done].
  by intros [= <-].
Qed.

Lemma sync_one_stats now map d k m d1 k1 :
  Sync.sync_one now map (d, k) m = Ok (d1, k1) ->
  (verified (Sync.markers d1) <= verified (Sync.markers d))%nat /\
  (length (Sync.markers d1) + k <= length (Sync.markers d) + k1)%nat.
Proof.
  intros Hone. destruct (SyncSpec.has_geometry m) eqn:Hg.
  - destruct (SyncFacts.sync_one_stored _ _ _ _ _ _ Hg Hone)
      as (g & row & _ & Hrow & Hm & _ & Hk).
    cbn [fst snd] in Hm, Hk. subst k1. rewrite Hm.
    destruct (insert_or_replace_stats row (Sync.markers d)
                (marker_values_unverified _ _ _ _ _ Hrow)).
    lia.
  - rewrite (SyncFacts.sync_one_skip _ _ _ _ Hg) in Hone.
    injection Hone as <- <-. lia.
Qed.

Lemma sync_loop_stats now map ms d k d' n :
  Sync.sync_loop now map ms (d, k) = Ok (d', n) ->
  (verified (Sync.markers d') <= verified (Sync.markers d))%nat /\
  (length (Sync.markers d') + k <= length (Sync.markers d) + n)%nat.
Proof.
  revert d k. induction ms as [|m ms IH]; intros d k.
  - simpl. intros [= <- <-]. lia.
  - simpl. monad.
    destruct (Sync.sync_one now map (d, k) m) as [[d1 k1]|] eqn:Hone;
      [|done].
    intros H. destruct (IH _ _ H). destruct (sync_one_stats _ _ _ _ _ _ _ Hone).
    lia.
Qed.

Lemma quest_insert_length row t :
  (length (Quests.insert_or_replace row t) <= S (length t))%nat.
Proof.
  unfold Quests.insert_or_replace. rewrite length_app. cbn [length].
  pose proof (length_filter_le (fun r => negb (Quests.conflicts row r)) t).
  lia.
Qed.

Lemma sync_quests_loop_length now qs t k t' n :
  Quests.sync_quests_loop now qs (t, k) = Ok (t', n) ->
  (length t' + k <= length t + n)%nat.
Proof.
  revert t k. induction qs as [|q qs IH]; intros t k.
  - simpl. intros [= <- <-]. lia.
  - rewrite QuestFacts.sync_quests_loop_cons. cbn [fst snd].
    destruct (Quests.quest_values (now k) q) as [row|]; [|done].
    intros H. apply IH in H. pose proof (quest_insert_length row t). lia.
Qed.

Section service_stats.
Variable bytes : Type.
Variable b64decode : string -> result bytes.
Variable decode_utf8 : bytes -> result string.
Variable unquote : string -> result string.
Variable get_markers : string -> result (option string).
Variable get_quests : result (option string).
Variable loads_markers : string -> result (list Sync.marker).
Variable loads_quests : string -> result (list Quests.quest).
Variable now_markers : string -> nat -> Z.
Variable now_quests : nat -> Z.
Variable now_metadata : nat -> Z.
Variable isoformat_now : string.

Abbreviation map_step' :=
  (map_step bytes b64decode decode_utf8 unquote get_markers loads_markers
     now_markers).
Abbreviation quests_step' :=
  (quests_step bytes b64decode decode_utf8 unquote get_quests loads_quests
     now_quests).

Lemma map_step_stats st map_name :
  let st' := map_step' st map_name in
  (verified (Sync.markers (tables (fst st')))
   <= verified (Sync.markers (tables (fst st))))%nat /\
  (length (Sync.markers (tables (fst st'))) + snd st
   <= length (Sync.markers (tables (fst st))) + snd st')%nat /\
  quests (fst st') = quests (fst st).
Proof.
  unfold map_step, sync_map. monad.
  destruct (fetch_markers _ _ _ _ _ _ map_name) as [ms|e];
    [|cbn zeta; split; [lia|]; split; [lia|done]].
  unfold Sync.sync_markers.
  destruct (Sync.sync_loop (now_markers map_name) map_name ms
              (tables (fst st), 0%nat)) as [[d' n]|e] eqn:Hs;
    cbn [fst snd tables quests];
    [|cbn zeta; split; [lia|]; split; [lia|done]].
  destruct (sync_loop_stats _ _ _ _ _ _ _ Hs). cbn zeta. cbn [fst snd tables quests].
  split; [lia|]. split; [lia|done].
Qed.

Lemma map_loop_stats st maps :
  let st' := foldl map_step' st maps in
  (verified (Sync.markers (tables (fst st')))
   <= verified (Sync.markers (tables (fst st))))%nat /\
  (length (Sync.markers (tables (fst st'))) + snd st
   <= length (Sync.markers (tables (fst st))) + snd st')%nat /\
  quests (fst st') = quests (fst st).
Proof.
  revert st. induction maps as [|m maps IH]; intros st.
  - simpl. split; [lia|]. split; [lia|done].
  - cbn [foldl]. destruct (IH (map_step' st m)) as (H1 & H2 & H3).
    destruct (map_step_stats st m) as (H4 & H5 & H6).
    cbn zeta in *. split; [lia|]. split; [lia|congruence].
Qed.

Lemma quests_step_stats s :
  let st := quests_step' s in
  tables (fst st) = tables s /\
  (length (quests (fst st)) <= length (quests s) + snd st)%nat.
Proof.
  unfold quests_step, sync_all_quests. monad.
  destruct (fetch_quests _ _ _ _ _ _) as [qs|e];
    [|cbn zeta; cbn [fst snd]; split; [done|lia]].
  unfold Quests.sync_quests.
  destruct (Quests.sync_quests_loop now_quests qs (quests s, 0%nat))
    as [[t n]|e] eqn:Hs; cbn zeta; cbn [fst snd tables quests];
    [|split; [done|lia]].
  apply sync_quests_loop_length in Hs. split; [done|lia].
Qed.

(** The statistics after a full sync of an existing database: the time
    of the last full sync is the time of this run; the number of
    verified markers has not grown, since a sync stores every row
    unverified; and the marker and quest totals have grown by at most
    the totals that the run reports (a stored record that replaces a row
    adds to the reported total but not to the table). *)
Theorem full_sync_stats (maps : option (list string)) (s : store) :
  let out := full_sync bytes b64decode decode_utf8 unquote get_markers
               get_quests loads_markers loads_quests now_markers now_quests
               now_metadata isoformat_now maps (Some s) in
  let before := get_stats s in
  let after := get_stats (fst out) in
  last_full_sync after = Some isoformat_now /\
  (verified_markers after <= verified_markers before)%nat /\
  (total_markers after <= total_markers before + fst (snd out))%nat /\
  (total_quests after <= total_quests before + snd (snd out))%nat.
Proof.
  intros out before after. subst out before after.
  unfold full_sync, get_stats. cbv zeta.
  cbn [fst snd last_full_sync verified_markers total_markers total_quests].
  unfold update_sync_metadata.
  cbn [tables quests sync_metadata].
  destruct (map_loop_stats (s, 0%nat) (maps_to_sync maps)) as (H1 & H2 & H3).
  cbn zeta in H1, H2, H3. cbn [fst snd] in H1, H2, H3.
  destruct (quests_step_stats
              (fst (foldl map_step' (s, 0%nat) (maps_to_sync maps))))
    as (H4 & H5).
  cbn zeta in H4, H5. rewrite H4.
  split; [by rewrite !lookup_insert_ne, lookup_insert_eq by done|].
  split; [exact H1|]. split; [lia|]. rewrite H3 in H5. exact H5.
Qed.

End service_stats.

End StatsFacts.
